(** * Event bus and keyed worker lifecycle manager

    A shallow embedding of
      - [core/events/simple_bus.py]  (inline bus: [SimpleSignal], [SimpleEventBus]),
      - [core/events/qt_bus.py]      (threaded bus: [_EventBusBackend.disconnect_all],
                                      the lazy [EventBus]),
      - [workers/base_worker.py]     ([BaseWorker.run]),
      - [services/base_service.py]   ([BaseService]: the worker registry),
    followed by the properties of the specification that concern them and by
    further properties of the same code.

    Python objects that are shared and mutated (signals, threads, workers)
    live in explicit stores and are referred to by their identity. *)

From stdpp Require Import gmap strings list sorting.

(* ===================================================================== *)
(** * Part I: definitions                                                 *)
(* ===================================================================== *)

(** ** Python exceptions

    Only the part of the class hierarchy that the [except] clauses of the
    sources can tell apart: [NotImplementedError] derives from
    [RuntimeError]; everything but the [BaseException]-only classes
    ([SystemExit], [KeyboardInterrupt], ...) derives from [Exception]. *)
Module Py.

Inductive exc_class :=
  | RuntimeError
  | NotImplementedError
  | TypeError
  | OtherException
  | BaseExceptionOnly.

Record PyExc := mkExc { exc_cls : exc_class; exc_str : string }.

Definition isinstance_Exception (e : PyExc) : bool :=
  match exc_cls e with
  | BaseExceptionOnly => false
  | _ => true
  end.

Definition isinstance_RuntimeError (e : PyExc) : bool :=
  match exc_cls e with
  | RuntimeError | NotImplementedError => true
  | _ => false
  end.

(** Truth value of an [Optional[str]]: [None] and the empty string are falsy. *)
Definition truthy (worker_id : option string) : bool :=
  match worker_id with
  | None => false
  | Some k => if decide (k = EmptyString) then false else true
  end.

End Py.

(* ===================================================================== *)
(** ** Inline backend: [core/events/simple_bus.py]                        *)
(* ===================================================================== *)
Module SimpleBus.

(** A handler is a Python callable; [in], [remove] and the idempotence test of
    [connect] compare callables with [==], which is identity for functions
    (and receiver plus function for bound methods).  A handler is therefore
    represented by its identity. *)
Definition Handler := nat.

(** Identity of a heap object. *)
Definition loc := nat.

(** [class SimpleSignal]: one attribute, the list of handlers. *)
Record SimpleSignal := mkSignal { _handlers : list Handler }.

(** [SimpleSignal.__init__] *)
Definition SimpleSignal_init : SimpleSignal := mkSignal [].

(** [list.remove(x)]: drops the first occurrence (raises [ValueError] when
    there is none; [disconnect] guards the call with [in]). *)
Fixpoint list_remove (x : Handler) (l : list Handler) : list Handler :=
  match l with
  | [] => []
  | y :: l' => if decide (x = y) then l' else y :: list_remove x l'
  end.

(** [SimpleSignal.connect] *)
Definition connect (handler : Handler) (self : SimpleSignal) : SimpleSignal :=
  if decide (handler ∈ _handlers self) then self
  else mkSignal (_handlers self ++ [handler]).

(** [SimpleSignal.disconnect] *)
Definition disconnect (handler : option Handler) (self : SimpleSignal)
  : SimpleSignal :=
  match handler with
  | None => mkSignal []
  | Some h =>
      if decide (h ∈ _handlers self) then mkSignal (list_remove h (_handlers self))
      else self
  end.

(** The store of [SimpleSignal] objects and of the dataclass instances that
    refer to them.  [next_loc] is the identity the next constructed object
    gets. *)
Record Store := mkStore {
  objs : gmap loc SimpleSignal;
  next_loc : loc
}.

Definition empty_store : Store := mkStore ∅ 0.

(** The signal object at an identity. *)
Definition sig_at (σ : Store) (ℓ : loc) : SimpleSignal :=
  default SimpleSignal_init (objs σ !! ℓ).

(** In-place mutation of the signal object at [ℓ] by one of its methods. *)
Definition sig_call (ℓ : loc) (method : SimpleSignal → SimpleSignal) (σ : Store)
  : Store :=
  mkStore (<[ℓ := method (sig_at σ ℓ)]> (objs σ)) (next_loc σ).

(** [SimpleSignal()]: a new object with its own, empty handler list. *)
Definition new_SimpleSignal (σ : Store) : loc * Store :=
  (next_loc σ,
   mkStore (<[next_loc σ := SimpleSignal_init]> (objs σ)) (S (next_loc σ))).

(** Construction of an object without state of interest (a dataclass
    instance, a bus): only its identity is taken. *)
Definition new_object (σ : Store) : loc * Store :=
  (next_loc σ, mkStore (objs σ) (S (next_loc σ))).

(** *** emit *)

(** What calling a handler does: it returns or raises, and in both cases it
    may have mutated the signals in the store (by [connect], [disconnect],
    [disconnect_all] on any of them). *)
Inductive outcome (A : Type) :=
  | Returns (a : A) (σ : Store)
  | Raises (e : Py.PyExc) (a : A) (σ : Store).
Arguments Returns {A} a σ.
Arguments Raises {A} e a σ.

Section Emit.
(** The payload [( *args, **kwargs )] is passed through unchanged. *)
Context {Args : Type}.

(** The callables: the behaviour of handler [h] called with a payload in a
    store.  The [unit] stands for the ignored return value. *)
Variable call : Handler → Args → Store → outcome unit.

(** The body of [for h in snapshot: h( *args, **kwargs )].  [log] collects
    the calls made, in order; an exception leaves the loop at once. *)
Fixpoint emit_loop (snapshot : list Handler) (args : Args)
    (log : list (Handler * Args)) (σ : Store)
  : outcome (list (Handler * Args)) :=
  match snapshot with
  | [] => Returns log σ
  | h :: rest =>
      match call h args σ with
      | Returns _ σ' => emit_loop rest args (log ++ [(h, args)]) σ'
      | Raises e _ σ' => Raises e (log ++ [(h, args)]) σ'
      end
  end.

(** [SimpleSignal.emit]: the loop runs over [list(self._handlers)], a copy
    made before the first call. *)
Definition emit (self : loc) (args : Args) (σ : Store)
  : outcome (list (Handler * Args)) :=
  emit_loop (_handlers (sig_at σ self)) args [] σ.

(** The calls an [emit] made, and the store it left, whether it returned
    or raised. *)
Definition calls_of (o : outcome (list (Handler * Args)))
  : list (Handler * Args) :=
  match o with
  | Returns log _ => log
  | Raises _ log _ => log
  end.

Definition store_of (o : outcome (list (Handler * Args))) : Store :=
  match o with
  | Returns _ σ => σ
  | Raises _ _ σ => σ
  end.

(** A callable that returns whatever the payload and the store are. *)
Definition never_raises (h : Handler) : Prop :=
  ∀ args σ, ∃ σ', call h args σ = Returns tt σ'.
End Emit.

(** *** Signal groups

    [@dataclass class _Log: message: SimpleSignal = SimpleSignal()].  The
    right-hand side is evaluated once, when the class body runs at import
    time; the object becomes the class attribute and the default value of
    the parameter of the generated [__init__], which stores it in the
    instance.  (The dataclass machinery refuses only unhashable defaults;
    [SimpleSignal] defines no [__eq__] and stays hashable.) *)
Record Classes := mkClasses {
  _Log_message : loc;
  _Data_sequence_activity_changed : loc;
  _Data_sequence_data_loaded : loc;
  _System_system_error_occurred : loc;
  _System_system_notification_received : loc
}.

(** The three class bodies, in source order. *)
Definition import_module (σ : Store) : Classes * Store :=
  let '(m, σ) := new_SimpleSignal σ in
  let '(a, σ) := new_SimpleSignal σ in
  let '(d, σ) := new_SimpleSignal σ in
  let '(e, σ) := new_SimpleSignal σ in
  let '(n, σ) := new_SimpleSignal σ in
  (mkClasses m a d e n, σ).

(** Instances: a new object whose fields hold the defaults. *)
Record _Log := mk_Log { _Log_id : loc; message : loc }.
Record _Data := mk_Data {
  _Data_id : loc;
  sequence_activity_changed : loc;
  sequence_data_loaded : loc
}.
Record _System := mk_System {
  _System_id : loc;
  system_error_occurred : loc;
  system_notification_received : loc
}.

Definition _Log_init (cls : Classes) (σ : Store) : _Log * Store :=
  let '(i, σ) := new_object σ in (mk_Log i (_Log_message cls), σ).

Definition _Data_init (cls : Classes) (σ : Store) : _Data * Store :=
  let '(i, σ) := new_object σ in
  (mk_Data i (_Data_sequence_activity_changed cls)
     (_Data_sequence_data_loaded cls), σ).

Definition _System_init (cls : Classes) (σ : Store) : _System * Store :=
  let '(i, σ) := new_object σ in
  (mk_System i (_System_system_error_occurred cls)
     (_System_system_notification_received cls), σ).

Inductive group :=
  | GSystem (g : _System)
  | GLog (g : _Log)
  | GData (g : _Data).

(** The value of an attribute, as far as [isinstance(sig, SimpleSignal)]
    can tell. *)
Inductive attr_value :=
  | AttrSignal (ℓ : loc)
  | AttrOther.

(** The names [dir] lists for every dataclass instance besides its fields. *)
Definition object_dir : list string :=
  ["__annotations__"; "__class__"; "__dataclass_fields__";
   "__dataclass_params__"; "__delattr__"; "__dict__"; "__dir__"; "__doc__";
   "__eq__"; "__format__"; "__ge__"; "__getattribute__"; "__gt__";
   "__hash__"; "__init__"; "__init_subclass__"; "__le__"; "__lt__";
   "__match_args__"; "__module__"; "__ne__"; "__new__"; "__reduce__";
   "__reduce_ex__"; "__repr__"; "__setattr__"; "__sizeof__"; "__str__";
   "__subclasshook__"; "__weakref__"].

Definition fields (g : group) : list (string * loc) :=
  match g with
  | GSystem g =>
      [("system_error_occurred", system_error_occurred g);
       ("system_notification_received", system_notification_received g)]
  | GLog g => [("message", message g)]
  | GData g =>
      [("sequence_activity_changed", sequence_activity_changed g);
       ("sequence_data_loaded", sequence_data_loaded g)]
  end.

(** [dir(group)], sorted: the dunder names come before the field names. *)
Definition dir (g : group) : list string := object_dir ++ (fields g).*1.

(** [getattr(group, attr, None)] *)
Definition getattr (g : group) (attr : string) : option attr_value :=
  match list_find (λ f, f.1 = attr) (fields g) with
  | Some (_, (_, ℓ)) => Some (AttrSignal ℓ)
  | None => if decide (attr ∈ object_dir) then Some AttrOther else None
  end.

(** [class SimpleEventBus] *)
Record SimpleEventBus := mkBus {
  bus_id : loc;
  system : _System;
  log : _Log;
  data : _Data;
  _signal_groups : list group
}.

(** [SimpleEventBus.__init__] *)
Definition SimpleEventBus_init (cls : Classes) (σ : Store)
  : SimpleEventBus * Store :=
  let '(self, σ) := new_object σ in
  let '(sys, σ) := _System_init cls σ in
  let '(lg, σ) := _Log_init cls σ in
  let '(dt, σ) := _Data_init cls σ in
  (mkBus self sys lg dt [GSystem sys; GLog lg; GData dt], σ).

(** [signal_name is None or attr == signal_name] *)
Definition name_matches (signal_name : option string) (attr : string) : bool :=
  match signal_name with
  | None => true
  | Some n => bool_decide (attr = n)
  end.

(** The body of the inner loop of [disconnect_all], for one attribute. *)
Definition disconnect_attr (signal_name : option string) (g : group)
    (σ : Store) (attr : string) : Store :=
  match getattr g attr with
  | Some (AttrSignal sig) =>
      if name_matches signal_name attr then sig_call sig (disconnect None) σ
      else σ
  | _ => σ
  end.

(** [SimpleEventBus.disconnect_all] *)
Definition disconnect_all (self : SimpleEventBus) (signal_name : option string)
    (σ : Store) : Store :=
  foldl (λ σ g, foldl (disconnect_attr signal_name g) σ (dir g))
    σ (_signal_groups self).

(** What the inner loop does for one field of a group. *)
Definition disconnect_field (signal_name : option string) (σ : Store)
    (f : string * loc) : Store :=
  if name_matches signal_name f.1 then sig_call f.2 (disconnect None) σ else σ.

(** Whether some field in [fs] holds the object [ℓ] under a name that the
    filter accepts. *)
Definition cleared (signal_name : option string) (fs : list (string * loc))
    (ℓ : loc) : bool :=
  existsb (λ f, name_matches signal_name f.1 && bool_decide (f.2 = ℓ)) fs.

(** The attribute access [bus.<group>.<signal>] by which callers reach a
    signal. *)
Definition bus_group (self : SimpleEventBus) (group_name : string)
  : option group :=
  if decide (group_name = "system") then Some (GSystem (system self))
  else if decide (group_name = "log") then Some (GLog (log self))
  else if decide (group_name = "data") then Some (GData (data self))
  else None.

Definition bus_signal (self : SimpleEventBus) (group_name signal_name : string)
  : option loc :=
  g ← bus_group self group_name;
  match getattr g signal_name with
  | Some (AttrSignal sig) => Some sig
  | _ => None
  end.

End SimpleBus.

(* ===================================================================== *)
(** ** Threaded backend: [core/events/qt_bus.py]                          *)
(* ===================================================================== *)
Module QtBus.

Import SimpleBus(Handler, name_matches).

(** [QMetaMethod.MethodType] *)
Inductive MethodType := Method | Signal | Slot | Constructor.

Record QMetaMethod := mkMethod { methodType : MethodType; name : string }.

(** The part of PySide6 that [disconnect_all] relies on is library code, not
    code of this repository; it is modelled as follows.  [QMetaObject.method]
    enumerates the methods of the base class [QObject] first. *)
Definition QObject_methods : list QMetaMethod :=
  [mkMethod Signal "destroyed"; mkMethod Signal "destroyed";
   mkMethod Signal "objectNameChanged"; mkMethod Slot "deleteLater";
   mkMethod Slot "_q_reregisterTimers"].

(** A signal group object: its meta-object and, for every signal attribute
    of the instance, the slots connected to it.  A Qt signal is bound per
    instance, so the connections belong to the group object. *)
Record QObjectGroup := mkGroup {
  metaObject : list QMetaMethod;
  connections : gmap string (list Handler)
}.

Definition new_group (own : list string) : QObjectGroup :=
  let methods := QObject_methods ++ (mkMethod Signal <$> own) in
  mkGroup methods (list_to_map ((λ m, (name m, [])) <$> methods)).

(** [class SystemSignals], [class LogSignals], [class DataSignals] *)
Definition SystemSignals : QObjectGroup :=
  new_group ["system_error_occurred"; "system_notification_received"].
Definition LogSignals : QObjectGroup := new_group ["message"].
Definition DataSignals : QObjectGroup :=
  new_group ["sequence_activity_changed"; "sequence_data_loaded"].

(** [class _EventBusBackend].  [_signal_groups] holds references to the
    three group objects; a reference is the field it designates. *)
Inductive group_ref := system | log | data.

Record _EventBusBackend := mkBackend {
  b_system : QObjectGroup;
  b_log : QObjectGroup;
  b_data : QObjectGroup;
  _signal_groups : list group_ref
}.

Definition _EventBusBackend_init : _EventBusBackend :=
  mkBackend SystemSignals LogSignals DataSignals [system; log; data].

Definition deref (self : _EventBusBackend) (r : group_ref) : QObjectGroup :=
  match r with
  | system => b_system self
  | log => b_log self
  | data => b_data self
  end.

Definition assign (r : group_ref) (g : QObjectGroup) (self : _EventBusBackend)
  : _EventBusBackend :=
  match r with
  | system => mkBackend g (b_log self) (b_data self) (_signal_groups self)
  | log => mkBackend (b_system self) g (b_data self) (_signal_groups self)
  | data => mkBackend (b_system self) (b_log self) g (_signal_groups self)
  end.

(** [sig.disconnect()] of PySide6: drops every connection of the signal;
    with none to drop it fails with a [RuntimeError]. *)
Definition Signal_disconnect (slots : list Handler) : Py.PyExc + list Handler :=
  match slots with
  | [] => inl (Py.mkExc Py.RuntimeError "Failed to disconnect")
  | _ => inr []
  end.

(** The body of the loop over the meta-methods of one group. *)
Definition disconnect_method (signal_name : option string) (g : QObjectGroup)
    (m : QMetaMethod) : QObjectGroup :=
  match methodType m with
  | Signal =>
      let sig_name := name m in
      if name_matches signal_name sig_name then
        match connections g !! sig_name with
        | Some sig =>
            match Signal_disconnect sig with
            | inr sig' => mkGroup (metaObject g) (<[sig_name := sig']> (connections g))
            | inl e =>
                (* except (TypeError, RuntimeError): pass *)
                g
            end
        | None => g
        end
      else g
  | _ => g
  end.

(** [_EventBusBackend.disconnect_all] *)
Definition disconnect_all (self : _EventBusBackend) (signal_name : option string)
  : _EventBusBackend :=
  foldl (λ self r,
           let g := deref self r in
           assign r (foldl (disconnect_method signal_name) g (metaObject g)) self)
    self (_signal_groups self).

(** Whether the loop body acts on the signal attribute [a] at method [m]. *)
Definition hits (signal_name : option string) (a : string)
    (m : QMetaMethod) : bool :=
  match methodType m with
  | Signal =>
      bool_decide (name m = a) && name_matches signal_name (name m)
  | _ => false
  end.

End QtBus.

(* ===================================================================== *)
(** ** The contract of both backends: [core/events/interfaces.py]         *)
(* ===================================================================== *)
Module Bus.

Import SimpleBus(Handler, name_matches).

(** [class EventBusLike(Protocol)]: a bus has [disconnect_all].  To state
    what it does, a bus also lets one read its signals: the name and the
    connected handlers of every signal of every group, in the order
    [disconnect_all] visits them.  [bus_built] is what the constructors
    establish. *)
Class EventBusLike (B : Type) := {
  bus_built : B → Prop;
  bus_signals : B → list (string * list Handler);
  bus_disconnect_all : option string → B → B
}.

(** The signals named by the filter are left without handlers, the others
    as they were. *)
Definition disconnects_by_name `{EventBusLike B} (signal_name : option string)
    (b : B) : Prop :=
  bus_signals (bus_disconnect_all signal_name b) =
  (λ s, (s.1, if name_matches signal_name s.1 then [] else s.2)) <$> bus_signals b.

(** The inline bus: an instance made by [SimpleEventBus()] from the classes
    of the imported module, with the store its signals live in. *)
#[global] Instance SimpleEventBus_bus
  : EventBusLike (SimpleBus.SimpleEventBus * SimpleBus.Store) := {|
  bus_built b :=
    ∃ σ0 σ1, b.1 = (SimpleBus.SimpleEventBus_init (SimpleBus.import_module σ0).1 σ1).1;
  bus_signals b :=
    g ← SimpleBus._signal_groups b.1;
    (λ f, (f.1, SimpleBus._handlers (SimpleBus.sig_at b.2 f.2))) <$> SimpleBus.fields g;
  bus_disconnect_all signal_name b :=
    (b.1, SimpleBus.disconnect_all b.1 signal_name b.2)
|}.

(** The signals of a Qt group object: its meta-methods of type [Signal]
    that are attributes of the object. *)
Definition QObjectGroup_signals (g : QtBus.QObjectGroup)
  : list (string * list Handler) :=
  omap (λ m, match QtBus.methodType m with
             | QtBus.Signal =>
                 (λ slots, (QtBus.name m, slots)) <$>
                   QtBus.connections g !! QtBus.name m
             | _ => None
             end) (QtBus.metaObject g).

(** The threaded bus. *)
#[global] Instance EventBusBackend_bus : EventBusLike QtBus._EventBusBackend := {|
  bus_built b := QtBus._signal_groups b = [QtBus.system; QtBus.log; QtBus.data];
  bus_signals b :=
    r ← QtBus._signal_groups b; QObjectGroup_signals (QtBus.deref b r);
  bus_disconnect_all signal_name b := QtBus.disconnect_all b signal_name
|}.

End Bus.

(* ===================================================================== *)
(** ** Worker lifecycle: [services/base_service.py], [workers/base_worker.py] *)
(* ===================================================================== *)
Module Service.

(** Identities of [QThread] and worker objects.  The comparison
    [target_thread != stored_thread] of [_cleanup_worker] is on identity. *)
Definition ThreadRef := nat.
Definition WorkerRef := nat.

Inductive LogLevel := INFO | WARNING | ERROR | DEBUG.

(** The texts logged by [BaseService], one constructor per f-string, with the
    values interpolated into it. *)
Inductive LogMsg :=
  | MsgInterruptExisting (worker_id : option string)
  | MsgAlreadyRunning (worker_id : option string)
  | MsgWorkerError (worker_id : option string) (msg : string)
  | MsgSetupDone (worker_id : option string)
  | MsgThreadChanged (worker_id : option string)
  | MsgStopRequest (worker_id : option string)
  | MsgEmergencyStop (worker_id : option string)
  | MsgNotResponding (worker_id : option string)
  | MsgAlreadyDeleted (worker_id : option string)
  | MsgRemoved (worker_id : option string)
  | MsgNoRunMethod (worker_id : option string).

(** The callables that the service connects to the two signals of a worker. *)
Inductive Slot :=
  | SlotLogError (worker_id : option string)
      (* lambda msg: self.log_error(f"... {msg}") *)
  | SlotCleanupById (worker_id : option string)
      (* lambda msg: self._cleanup_worker(worker_id=worker_id) *)
  | SlotThreadQuit (thread : ThreadRef)
      (* thread.quit *)
  | SlotWorkerDeleteLater (worker : WorkerRef)
      (* worker.deleteLater *)
  | SlotCleanup (thread : ThreadRef) (worker : WorkerRef)
      (worker_id : option string).
      (* lambda: self._cleanup_worker(thread=thread, worker=worker,
                                      worker_id=worker_id) *)

(** Methods of [QThread] called by the service. *)
Inductive ThreadCall :=
  | isRunning
  | requestInterruption
  | quit
  | wait (msecs : option N)
  | terminate
  | start.

Inductive WorkerSignal := worker_task_finished | worker_error_occurred.

(** What the service and the workers do to the outside, in order. *)
Inductive Event :=
  | EvLog (level : LogLevel) (msg : LogMsg)
      (* EVENT_BUS.log.message.emit(self.log_source, message, level) *)
  | EvCall (thread : ThreadRef) (call : ThreadCall)
  | EvEmit (worker : WorkerRef) (sig : WorkerSignal) (payload : option string).

(** A [QThread] object. *)
Record QThread := mkThread {
  running : bool;                 (* what isRunning() answers *)
  deleted : bool;                 (* the C++ object is gone *)
  interruption_requested : bool;
  quit_requested : bool;
  terminate_called : bool;
  started : list WorkerRef;       (* thread.started: the connected worker.run *)
  finished_deleteLater : nat      (* thread.finished: connected thread.deleteLater *)
}.

(** [QThread()] *)
Definition QThread_init : QThread := mkThread false false false false false [] 0.

(** What the body [process] of a worker does when it is run. *)
Inductive process_outcome :=
  | ProcessReturns
  | ProcessRaises (e : Py.PyExc).

(** A worker object: the attributes the service probes with [hasattr], the
    connections of its two signals, and its [process]. *)
Record Worker := mkWorker {
  has_worker_error_occurred : bool;
  has_worker_task_finished : bool;
  has_run : bool;
  error_slots : list Slot;
  finished_slots : list Slot;
  thread_of : option ThreadRef;   (* moveToThread *)
  deleteLater_called : bool;
  process : process_outcome
}.

(** A plain [QObject]: none of the optional attributes. *)
Definition QObject_init : Worker :=
  mkWorker false false false [] [] None false ProcessReturns.

(** [BaseWorker.process] raises
    [NotImplementedError("하위 클래스에서 구현해야 한다.")] unless overridden. *)
Definition BaseWorker_process : process_outcome :=
  ProcessRaises (Py.mkExc Py.NotImplementedError "하위 클래스에서 구현해야 한다.").

(** [BaseWorker()] and its subclasses: both signals and [run]; a subclass
    supplies [process]. *)
Definition BaseWorker_init (process : process_outcome) : Worker :=
  mkWorker true true true [] [] None false process.

(** The service object together with the Qt objects it handles.
    [confirms] is the environment: whether a thread that was asked to stop
    is seen finished by [wait(1000)]. *)
Record World := mkWorld {
  _active_workers : gmap string (ThreadRef * WorkerRef);
  threads : gmap ThreadRef QThread;
  workers : gmap WorkerRef Worker;
  next_thread : ThreadRef;
  confirms : ThreadRef → bool;
  trace : list Event
}.

Definition worker_at (s : World) (w : WorkerRef) : Worker :=
  default QObject_init (workers s !! w).

Definition set_active_workers (f : gmap string (ThreadRef * WorkerRef) →
                                   gmap string (ThreadRef * WorkerRef))
    (s : World) : World :=
  mkWorld (f (_active_workers s)) (threads s) (workers s) (next_thread s)
    (confirms s) (trace s).

Definition set_thread (t : ThreadRef) (th : QThread) (s : World) : World :=
  mkWorld (_active_workers s) (<[t := th]> (threads s)) (workers s)
    (next_thread s) (confirms s) (trace s).

Definition set_worker (w : WorkerRef) (wk : Worker) (s : World) : World :=
  mkWorld (_active_workers s) (threads s) (<[w := wk]> (workers s))
    (next_thread s) (confirms s) (trace s).

Definition record (ev : Event) (s : World) : World :=
  mkWorld (_active_workers s) (threads s) (workers s) (next_thread s)
    (confirms s) (trace s ++ [ev]).

(** *** Computations that change the world and may raise *)
Inductive result (A : Type) :=
  | Ok (a : A) (s : World)
  | Err (e : Py.PyExc) (s : World).
Arguments Ok {A} a s.
Arguments Err {A} e s.

Definition M (A : Type) : Type := World → result A.

#[global] Instance M_ret : MRet M := λ A a s, Ok a s.
#[global] Instance M_bind : MBind M := λ A B f m s,
  match m s with
  | Ok a s' => f a s'
  | Err e s' => Err e s'
  end.

Definition get : M World := λ s, Ok s s.
Definition modify (f : World → World) : M unit := λ s, Ok tt (f s).
Definition raise {A} (e : Py.PyExc) : M A := λ s, Err e s.

(** [try: body except RuntimeError: handler] *)
Definition try_except_RuntimeError (body handler : M unit) : M unit := λ s,
  match body s with
  | Ok a s' => Ok a s'
  | Err e s' => if Py.isinstance_RuntimeError e then handler s' else Err e s'
  end.

(** An exception that leaves a slot called by Qt is reported by PySide6 and
    goes no further. *)
Definition slot_boundary (body : M unit) : M unit := λ s,
  match body s with
  | Ok a s' => Ok tt s'
  | Err e s' => Ok tt s'
  end.

(** [BaseService.log] and its four wrappers *)
Definition log (message : LogMsg) (level : LogLevel) : M unit :=
  modify (record (EvLog level message)).
Definition log_info (message : LogMsg) : M unit := log message INFO.
Definition log_warning (message : LogMsg) : M unit := log message WARNING.
Definition log_error (message : LogMsg) : M unit := log message ERROR.
Definition log_debug (message : LogMsg) : M unit := log message DEBUG.

(** *** [QThread] methods *)

(** A method call on a thread object: recorded, refused with
    [RuntimeError] when the underlying C++ object has been deleted. *)
Definition thread_call {A} (t : ThreadRef) (c : ThreadCall)
    (method : World → QThread → A * QThread) : M A := λ s,
  let s := record (EvCall t c) s in
  match threads s !! t with
  | Some th =>
      if deleted th then
        Err (Py.mkExc Py.RuntimeError "Internal C++ object already deleted.") s
      else let '(a, th') := method s th in Ok a (set_thread t th' s)
  | None =>
      Err (Py.mkExc Py.RuntimeError "Internal C++ object already deleted.") s
  end.

Definition QThread_isRunning (t : ThreadRef) : M bool :=
  thread_call t isRunning (λ _ th, (running th, th)).

Definition interruption_requested_set (th : QThread) : QThread :=
  mkThread (running th) (deleted th) true (quit_requested th)
    (terminate_called th) (started th) (finished_deleteLater th).

Definition quit_requested_set (th : QThread) : QThread :=
  mkThread (running th) (deleted th) (interruption_requested th) true
    (terminate_called th) (started th) (finished_deleteLater th).

Definition terminate_called_set (th : QThread) : QThread :=
  mkThread (running th) (deleted th) (interruption_requested th)
    (quit_requested th) true (started th) (finished_deleteLater th).

Definition running_set (r : bool) (th : QThread) : QThread :=
  mkThread r (deleted th) (interruption_requested th) (quit_requested th)
    (terminate_called th) (started th) (finished_deleteLater th).

Definition QThread_requestInterruption (t : ThreadRef) : M unit :=
  thread_call t requestInterruption (λ _ th, (tt, interruption_requested_set th)).

Definition QThread_quit (t : ThreadRef) : M unit :=
  thread_call t quit (λ _ th, (tt, quit_requested_set th)).

Definition QThread_terminate (t : ThreadRef) : M unit :=
  thread_call t terminate (λ _ th, (tt, terminate_called_set th)).

(** [wait(msecs)]: true when the thread has finished or finishes within the
    time given; [wait()] blocks until it has. *)
Definition QThread_wait (t : ThreadRef) (msecs : option N) : M bool :=
  thread_call t (wait msecs) (λ s th,
    if running th then
      match msecs with
      | None => (true, running_set false th)
      | Some _ =>
          if confirms s t then (true, running_set false th) else (false, th)
      end
    else (true, th)).

Definition QThread_start (t : ThreadRef) : M unit :=
  thread_call t start (λ _ th, (tt, running_set true th)).

(** [thread = QThread()] *)
Definition new_QThread : M ThreadRef := λ s,
  let t := next_thread s in
  Ok t (mkWorld (_active_workers s) (<[t := QThread_init]> (threads s))
          (workers s) (S t) (confirms s) (trace s)).

(** *** Methods of worker objects and signal connections *)

(** In-place change of the worker object [worker].  The object is taken to
    be alive: on a worker whose C++ object has been deleted (some time after
    [deleteLater]), PySide6 raises [RuntimeError] from [moveToThread] and
    from the [connect]s, which is not modelled here; a property that needs
    the calls on the worker to go through says so ([Lifecycle.alive]). *)
Definition update_worker (worker : WorkerRef) (f : Worker → Worker) : M unit :=
  modify (λ s, set_worker worker (f (worker_at s worker)) s).

Definition Worker_moved (thread : ThreadRef) (wk : Worker) : Worker :=
  mkWorker (has_worker_error_occurred wk) (has_worker_task_finished wk)
    (has_run wk) (error_slots wk) (finished_slots wk) (Some thread)
    (deleteLater_called wk) (process wk).

Definition Worker_error_connected (slot : Slot) (wk : Worker) : Worker :=
  mkWorker (has_worker_error_occurred wk) (has_worker_task_finished wk)
    (has_run wk) (error_slots wk ++ [slot]) (finished_slots wk)
    (thread_of wk) (deleteLater_called wk) (process wk).

Definition Worker_finished_connected (slot : Slot) (wk : Worker) : Worker :=
  mkWorker (has_worker_error_occurred wk) (has_worker_task_finished wk)
    (has_run wk) (error_slots wk) (finished_slots wk ++ [slot])
    (thread_of wk) (deleteLater_called wk) (process wk).

Definition Worker_deleteLater (wk : Worker) : Worker :=
  mkWorker (has_worker_error_occurred wk) (has_worker_task_finished wk)
    (has_run wk) (error_slots wk) (finished_slots wk)
    (thread_of wk) true (process wk).

(** [worker.moveToThread(thread)] *)
Definition moveToThread (worker : WorkerRef) (thread : ThreadRef) : M unit :=
  update_worker worker (Worker_moved thread).

(** [worker.worker_error_occurred.connect(slot)]: a Qt connection is added
    at the end, also when an equal one exists. *)
Definition connect_error (worker : WorkerRef) (slot : Slot) : M unit :=
  update_worker worker (Worker_error_connected slot).

(** [worker.worker_task_finished.connect(slot)] *)
Definition connect_finished (worker : WorkerRef) (slot : Slot) : M unit :=
  update_worker worker (Worker_finished_connected slot).

(** [worker.deleteLater()] *)
Definition deleteLater (worker : WorkerRef) : M unit :=
  update_worker worker Worker_deleteLater.

(** In-place change of the thread object [thread], if there is one. *)
Definition update_thread (thread : ThreadRef) (f : QThread → QThread) : M unit :=
  modify (λ s,
    match threads s !! thread with
    | Some th => set_thread thread (f th) s
    | None => s
    end).

Definition QThread_finished_connected (th : QThread) : QThread :=
  mkThread (running th) (deleted th) (interruption_requested th)
    (quit_requested th) (terminate_called th) (started th)
    (S (finished_deleteLater th)).

Definition QThread_started_connected (worker : WorkerRef) (th : QThread)
  : QThread :=
  mkThread (running th) (deleted th) (interruption_requested th)
    (quit_requested th) (terminate_called th) (started th ++ [worker])
    (finished_deleteLater th).

(** [thread.finished.connect(thread.deleteLater)] *)
Definition connect_thread_finished (thread : ThreadRef) : M unit :=
  update_thread thread QThread_finished_connected.

(** [thread.started.connect(worker.run)] *)
Definition connect_thread_started (thread : ThreadRef) (worker : WorkerRef)
  : M unit :=
  update_thread thread (QThread_started_connected worker).

(** *** [BaseService._cleanup_worker] *)

(** The dictionary entry that [worker_id and worker_id in self._active_workers]
    finds, if the test holds. *)
Definition entry (worker_id : option string) (s : World)
  : option (ThreadRef * WorkerRef) :=
  if Py.truthy worker_id then _active_workers s !! default EmptyString worker_id
  else None.

(** Step 2: stop the thread, under [try ... except RuntimeError]. *)
Definition stop_thread (target_thread : option ThreadRef)
    (worker_id : option string) (force : bool) : M unit :=
  try_except_RuntimeError
    (match target_thread with
     | Some t =>
         r ← QThread_isRunning t;
         if r : bool then
           log_info (MsgStopRequest worker_id);;
           if force then
             log_warning (MsgEmergencyStop worker_id);;
             QThread_terminate t;;
             _ ← QThread_wait t None;
             mret tt
           else
             QThread_requestInterruption t;;
             QThread_quit t;;
             ok ← QThread_wait t (Some 1000%N);
             if ok : bool then mret tt
             else log_warning (MsgNotResponding worker_id)
         else mret tt
     | None => mret tt
     end)
    (log_info (MsgAlreadyDeleted worker_id)).

(** Step 3: remove the entry from the dictionary. *)
Definition remove_entry (worker_id : option string) : M unit :=
  s ← get;
  match entry worker_id s with
  | Some _ =>
      modify (set_active_workers (delete (default EmptyString worker_id)));;
      log_info (MsgRemoved worker_id)
  | None => mret tt
  end.

Definition _cleanup_worker (thread : option ThreadRef)
    (worker : option WorkerRef) (worker_id : option string) (force : bool)
  : M unit :=
  let target_thread := thread in
  s ← get;
  match entry worker_id s with
  | Some (stored_thread, stored_worker) =>
      let target_thread :=
        match target_thread with
        | None => Some stored_thread
        | Some t => Some t
        end in
      if decide (target_thread ≠ Some stored_thread) then
        log_warning (MsgThreadChanged worker_id)     (* return *)
      else
        stop_thread target_thread worker_id force;;
        remove_entry worker_id
  | None =>
      stop_thread target_thread worker_id force;;
      remove_entry worker_id
  end.

(** *** [BaseService._setup_worker_thread] *)

(** Steps 1 to 5, after the check of an existing entry. *)
Definition setup_new_thread (worker : WorkerRef) (worker_id : option string)
  : M (option (ThreadRef * WorkerRef)) :=
  thread ← new_QThread;
  moveToThread worker thread;;
  s ← get;
  (if has_worker_error_occurred (worker_at s worker) then
     connect_error worker (SlotLogError worker_id);;
     connect_error worker (SlotCleanupById worker_id)
   else mret tt);;
  (if has_worker_task_finished (worker_at s worker) then
     connect_finished worker (SlotThreadQuit thread);;
     connect_finished worker (SlotWorkerDeleteLater worker);;
     connect_thread_finished thread;;
     connect_finished worker (SlotCleanup thread worker worker_id)
   else mret tt);;
  (if Py.truthy worker_id then
     modify (set_active_workers
               (<[default EmptyString worker_id := (thread, worker)]>));;
     log_info (MsgSetupDone worker_id)
   else mret tt);;
  mret (Some (thread, worker)).

Definition _setup_worker_thread (worker : WorkerRef)
    (worker_id : option string) (force_interrupt : bool)
  : M (option (ThreadRef * WorkerRef)) :=
  s ← get;
  match entry worker_id s with
  | Some (existing_thread, _) =>
      r ← QThread_isRunning existing_thread;
      if r : bool then
        if force_interrupt then
          log_warning (MsgInterruptExisting worker_id);;
          _cleanup_worker None None worker_id false;;
          setup_new_thread worker worker_id
        else
          log_warning (MsgAlreadyRunning worker_id);;
          mret None
      else
        _cleanup_worker None None worker_id false;;
        setup_new_thread worker worker_id
  | None => setup_new_thread worker worker_id
  end.

(** *** The public methods of [BaseService] *)

Definition start_worker (worker : WorkerRef) (worker_id : option string)
    (force_interrupt : bool) : M (option ThreadRef) :=
  result ← _setup_worker_thread worker worker_id force_interrupt;
  match result with
  | None => mret None
  | Some (thread, worker) =>
      s ← get;
      (if has_run (worker_at s worker) then connect_thread_started thread worker
       else log_warning (MsgNoRunMethod worker_id));;
      QThread_start thread;;
      mret (Some thread)
  end.

Definition stop_worker (worker_id : string) : M unit :=
  _cleanup_worker None None (Some worker_id) false.

Definition force_stop_worker (worker_id : string) : M unit :=
  _cleanup_worker None None (Some worker_id) true.

(** *** Signals of a worker *)

(** What calling a connected slot does. *)
Definition call_slot (slot : Slot) (payload : option string) : M unit :=
  slot_boundary
    match slot with
    | SlotLogError worker_id =>
        log_error (MsgWorkerError worker_id (default EmptyString payload))
    | SlotCleanupById worker_id => _cleanup_worker None None worker_id false
    | SlotThreadQuit thread => QThread_quit thread
    | SlotWorkerDeleteLater worker => deleteLater worker
    | SlotCleanup thread worker worker_id =>
        _cleanup_worker (Some thread) (Some worker) worker_id false
    end.

Fixpoint call_slots (slots : list Slot) (payload : option string) : M unit :=
  match slots with
  | [] => mret tt
  | slot :: rest => call_slot slot payload;; call_slots rest payload
  end.

(** [self.<sig>.emit( *payload )]: the slots connected at this moment are
    called in connection order.  Delivery is taken as immediate; when a
    property depends on the moment a slot runs, it names the state in which
    the signal is emitted. *)
Definition emit (worker : WorkerRef) (sig : WorkerSignal)
    (payload : option string) : M unit :=
  modify (record (EvEmit worker sig payload));;
  s ← get;
  call_slots
    match sig with
    | worker_task_finished => finished_slots (worker_at s worker)
    | worker_error_occurred => error_slots (worker_at s worker)
    end payload.

(** *** [BaseWorker.run] *)
Definition run (self : WorkerRef) : M unit :=
  s ← get;
  match process (worker_at s self) with
  | ProcessReturns => emit self worker_task_finished None
  | ProcessRaises e =>
      if Py.isinstance_Exception e then
        emit self worker_error_occurred (Some (Py.exc_str e))
      else raise e
  end.

(** *** Vocabulary for the properties *)

(** The state a computation leaves, whether it returned or raised. *)
Definition after {A} (m : M A) (s : World) : World :=
  match m s with
  | Ok _ s' => s'
  | Err _ s' => s'
  end.

(** What the constructors and every method keep true of the service: no
    entry is registered under a falsy key (step 5 registers under
    [if worker_id:]), and the identity given to the next [QThread()] is
    not in use. *)
Definition consistent (s : World) : Prop :=
  _active_workers s !! EmptyString = None ∧
  map_Forall (λ t _, t < next_thread s) (threads s).

(** A service that has started nothing yet. *)
Definition BaseService_init (workers : gmap WorkerRef Worker)
    (confirms : ThreadRef → bool) : World :=
  mkWorld ∅ ∅ workers 0 confirms [].

(** [thread.isRunning()] answers [True]. *)
Definition reports_running (s : World) (t : ThreadRef) : Prop :=
  ∃ th, threads s !! t = Some th ∧ deleted th = false ∧ running th = true.

(** The thread object after a graceful stop request. *)
Definition asked_to_stop (confirmed : bool) (th : QThread) : QThread :=
  mkThread (if confirmed then false else running th) (deleted th) true true
    (terminate_called th) (started th) (finished_deleteLater th).

(** The events of a graceful stop of thread [t]. *)
Definition graceful_stop_events (t : ThreadRef) (worker_id : option string)
    (confirmed : bool) : list Event :=
  [EvCall t isRunning; EvLog INFO (MsgStopRequest worker_id);
   EvCall t requestInterruption; EvCall t quit; EvCall t (wait (Some 1000%N))] ++
  if confirmed then [] else [EvLog WARNING (MsgNotResponding worker_id)].

(** The worker object after the wiring of steps 2 to 4. *)
Definition wired (thread : ThreadRef) (worker : WorkerRef)
    (worker_id : option string) (wk : Worker) : Worker :=
  mkWorker (has_worker_error_occurred wk) (has_worker_task_finished wk)
    (has_run wk)
    (error_slots wk ++
       if has_worker_error_occurred wk
       then [SlotLogError worker_id; SlotCleanupById worker_id] else [])
    (finished_slots wk ++
       if has_worker_task_finished wk
       then [SlotThreadQuit thread; SlotWorkerDeleteLater worker;
             SlotCleanup thread worker worker_id] else [])
    (Some thread) (deleteLater_called wk) (process wk).

(** The methods called on thread [t] among the events [tr], in order. *)
Definition calls_on (t : ThreadRef) (tr : list Event) : list ThreadCall :=
  omap (λ ev, match ev with
              | EvCall t' c => if decide (t' = t) then Some c else None
              | _ => None
              end) tr.

(** The signal emissions among the events [tr], in order. *)
Definition emissions (tr : list Event)
  : list (WorkerRef * WorkerSignal * option string) :=
  omap (λ ev, match ev with
              | EvEmit w sig payload => Some (w, sig, payload)
              | _ => None
              end) tr.

(** *** Relations between the states before and after a computation *)

(** The registry only loses entries, no signal is emitted, no thread
    object appears or disappears, the allocator stands still. *)
Definition settles (s s' : World) : Prop :=
  _active_workers s' ⊆ _active_workers s ∧
  next_thread s' = next_thread s ∧
  emissions (trace s') = emissions (trace s) ∧
  (∀ t, is_Some (threads s' !! t) ↔ is_Some (threads s !! t)).

(** The same, and the worker objects are untouched. *)
Definition settles_workers (s s' : World) : Prop :=
  settles s s' ∧ workers s' = workers s.

(** A computation keeps [R], whether it returns or raises; what it raises
    is a [RuntimeError]. *)
Definition keeps (R : relation World) {A} (m : M A) : Prop :=
  ∀ s, match m s with
       | Ok _ s' => R s s'
       | Err e s' => R s s' ∧ Py.isinstance_RuntimeError e = true
       end.

(** A computation keeps [R] and returns. *)
Definition returns (R : relation World) {A} (m : M A) : Prop :=
  ∀ s, ∃ a s', m s = Ok a s' ∧ R s s'.

(** Consistency is not lost. *)
Definition keeps_consistent (s s' : World) : Prop := consistent s → consistent s'.

End Service.

(* ===================================================================== *)
(** ** Concrete situations used as test inputs                            *)
(* ===================================================================== *)
Module Scenario.
Import SimpleBus.

(** One signal object, at identity [0], with handlers [1] and [2] connected
    in this order. *)
Definition two_handlers : Store :=
  sig_call 0 (connect 2) (sig_call 0 (connect 1) (new_SimpleSignal empty_store).2).

Definition boom : Py.PyExc := Py.mkExc Py.OtherException "boom".

(** Handler [1] raises; every other handler returns. *)
Definition first_raises (h : Handler) (args : unit) (σ : Store) : outcome unit :=
  if decide (h = 1) then Raises boom tt σ else Returns tt σ.


(** Handler [1] connects handler [7] to the signal; the others only return. *)
Definition connecting (h : Handler) (args : unit) (σ : Store) : outcome unit :=
  if decide (h = 1) then Returns tt (sig_call 0 (connect 7) σ)
  else Returns tt σ.

(** Handler [1] connects handler [7] to the signal when [7] is not
    connected, and raises when it is; the others only return. *)
Definition connecting_then_raising (h : Handler) (args : unit) (σ : Store)
  : outcome unit :=
  if decide (h = 1) then
    if decide (7 ∈ _handlers (sig_at σ 0)) then Raises boom tt σ
    else Returns tt (sig_call 0 (connect 7) σ)
  else Returns tt σ.

(** The module is imported, two buses are made one after the other;
    through the first, handler [1] is connected to [log.message] and
    handler [2] to [system.system_error_occurred]. *)
Definition classes : Classes := (import_module empty_store).1.
Definition bus1 : SimpleEventBus :=
  (SimpleEventBus_init classes (import_module empty_store).2).1.
Definition bus2 : SimpleEventBus :=
  (SimpleEventBus_init classes
     (SimpleEventBus_init classes (import_module empty_store).2).2).1.
Definition subscribed : Store :=
  sig_call (system_error_occurred (system bus1)) (connect 2)
    (sig_call (message (log bus1)) (connect 1)
       (SimpleEventBus_init classes
          (SimpleEventBus_init classes (import_module empty_store).2).2).2).

(** Handlers that only return. *)
Definition returning (h : Handler) (args : unit) (σ : Store) : outcome unit :=
  Returns tt σ.

(** A threaded backend with slot [1] connected to [log.message] and slot
    [2] to [system.system_error_occurred]. *)
Definition qt_subscribed : QtBus._EventBusBackend :=
  QtBus.assign QtBus.system
    (QtBus.mkGroup (QtBus.metaObject QtBus.SystemSignals)
       (<["system_error_occurred" := [2]]> (QtBus.connections QtBus.SystemSignals)))
    (QtBus.assign QtBus.log
       (QtBus.mkGroup (QtBus.metaObject QtBus.LogSignals)
          (<["message" := [1]]> (QtBus.connections QtBus.LogSignals)))
       QtBus._EventBusBackend_init).

(** *** The worker registry *)
Import Service.

(** Two workers [0] and [1] exist, both [BaseWorker]s; the body of the
    first raises an exception whose text is empty, the body of the second
    returns.  No thread answers a stop request within the bounded wait. *)
Definition silent : Py.PyExc := Py.mkExc Py.OtherException EmptyString.

Definition two_workers : World :=
  mkWorld ∅ ∅
    (<[1 := BaseWorker_init ProcessReturns]>
       (<[0 := BaseWorker_init (ProcessRaises silent)]> ∅))
    0 (λ _, false) [].

(** Worker [0] is started under the key ["scan"]. *)
Definition scan_started : World := after (start_worker 0 (Some "scan") false) two_workers.

(** Then worker [1] is started under the same key with [force_interrupt]. *)
Definition scan_replaced : World := after (start_worker 1 (Some "scan") true) scan_started.

End Scenario.

(* ===================================================================== *)
(** ** Sequences of calls on one signal                                   *)
(* ===================================================================== *)
Module SignalCalls.
Import SimpleBus.

(** A call of one of the two methods that change the handler list. *)
Inductive SignalCall :=
  | CallConnect (handler : Handler)
  | CallDisconnect (handler : option Handler).

Definition signal_call (self : SimpleSignal) (c : SignalCall) : SimpleSignal :=
  match c with
  | CallConnect handler => connect handler self
  | CallDisconnect handler => disconnect handler self
  end.

(** The signal object after the calls, made in this order on a new signal. *)
Definition signal_after (calls : list SignalCall) : SimpleSignal :=
  foldl signal_call SimpleSignal_init calls.

(** The handlers subscribed after the calls, as a set. *)
Definition subscribed (calls : list SignalCall) : gset Handler :=
  foldl (λ X c, match c with
                | CallConnect h => {[ h ]} ∪ X
                | CallDisconnect (Some h) => X ∖ {[ h ]}
                | CallDisconnect None => ∅
                end) ∅ calls.

(** *** The order of connection *)





(** *** Handlers that return in one run *)
Section Runs.
Context {Args : Type}.
Variable call : Handler → Args → Store → outcome unit.

(** The handlers [hs], called one after the other with [args] from the store
    [σ] on, each in the store the one before has left, all return; the
    result is the store the last one leaves. *)
Fixpoint all_return (hs : list Handler) (args : Args) (σ : Store)
  : option Store :=
  match hs with
  | [] => Some σ
  | h :: rest =>
      match call h args σ with
      | Returns _ σ' => all_return rest args σ'
      | Raises _ _ _ => None
      end
  end.
End Runs.

End SignalCalls.

(* ===================================================================== *)
(** ** The lazy bus object: [class EventBus] of [core/events/qt_bus.py]   *)
(* ===================================================================== *)
Module QtProxy.
Import SimpleBus(Handler, name_matches).
Import QtBus.

(** The loop of [_EventBusBackend.disconnect_all] over the meta-methods of
    one group. *)
Definition disconnect_group_methods (signal_name : option string)
    (g : QObjectGroup) : QObjectGroup :=
  foldl (disconnect_method signal_name) g (metaObject g).

(** A group none of whose signals named by the filter has a connection. *)
Definition unconnected (signal_name : option string) (g : QObjectGroup)
  : Prop :=
  ∀ a slots, connections g !! a = Some slots →
             name_matches signal_name a = true → slots = [].

(** The [_EventBusBackend] objects made so far, by identity. *)
Record Heap := mkHeap {
  backends : gmap nat _EventBusBackend;
  next_backend : nat
}.

(** [class EventBus]: one attribute, empty at first. *)
Record EventBus := mkEventBus { _backend : option nat }.

(** [EventBus.__init__] *)
Definition EventBus_init : EventBus := mkEventBus None.

(** The property [_qobject]: the backend is made at the first access and
    kept. *)
Definition _qobject (self : EventBus) (h : Heap) : nat * EventBus * Heap :=
  match _backend self with
  | None =>
      let b := next_backend h in
      (b, mkEventBus (Some b),
       mkHeap (<[b := _EventBusBackend_init]> (backends h)) (S b))
  | Some b => (b, self, h)
  end.

(** What [getattr(backend, name)] finds, as far as the bus is concerned: one
    of the three group objects, or something else (another attribute of the
    [QObject], or an [AttributeError]). *)
Inductive attribute :=
  | AttrGroup (r : group_ref)
  | AttrOther.

Definition backend_getattr (name : string) : attribute :=
  if decide (name = "system") then AttrGroup system
  else if decide (name = "log") then AttrGroup log
  else if decide (name = "data") then AttrGroup data
  else AttrOther.

(** [EventBus.__getattr__]: [self._qobject] is evaluated first. *)
Definition __getattr__ (self : EventBus) (name : string) (h : Heap)
  : attribute * EventBus * Heap :=
  let '(b, self, h) := _qobject self h in
  (backend_getattr name, self, h).

(** [EventBus.disconnect_all] *)
Definition disconnect_all (self : EventBus) (signal_name : option string)
    (h : Heap) : EventBus * Heap :=
  let '(b, self, h) := _qobject self h in
  (self,
   mkHeap (alter (λ backend, QtBus.disconnect_all backend signal_name) b
             (backends h))
     (next_backend h)).

(** Uses of the bus object. *)
Inductive Use :=
  | UseGetattr (name : string)
  | UseDisconnectAll (signal_name : option string).

Definition use (st : EventBus * Heap) (u : Use) : EventBus * Heap :=
  match u with
  | UseGetattr name => let '(_, self, h) := __getattr__ st.1 name st.2 in (self, h)
  | UseDisconnectAll signal_name => disconnect_all st.1 signal_name st.2
  end.

(** The same use made of a backend object directly. *)
Definition direct (backend : _EventBusBackend) (u : Use) : _EventBusBackend :=
  match u with
  | UseGetattr name => backend
  | UseDisconnectAll signal_name => QtBus.disconnect_all backend signal_name
  end.

(** The bus holds the object [b], whose state is [backend]. *)
Definition holds (st : EventBus * Heap) (b : nat) (backend : _EventBusBackend)
  : Prop :=
  _backend st.1 = Some b ∧ backends st.2 !! b = Some backend.

End QtProxy.

(* ===================================================================== *)
(** ** The registry over time: the rest of [services/base_service.py]     *)
(* ===================================================================== *)
Module Lifecycle.
Import Service.

(** *** The loop of [BaseService.cleanup_all_workers]

    [for worker_id in list(self._active_workers.keys()):
     self._cleanup_worker(worker_id=worker_id)], where [keys] is the copy of
    the keys, in the order of the dictionary.  (The announcement that
    precedes the loop is a log call and is left out.) *)
Fixpoint cleanup_each (keys : list string) : M unit :=
  match keys with
  | [] => mret tt
  | worker_id :: rest =>
      _cleanup_worker None None (Some worker_id) false;; cleanup_each rest
  end.

(** *** The end of [start_worker], from the result of the setup on *)
Definition start_tail (worker_id : option string)
    (result : option (ThreadRef * WorkerRef)) : M (option ThreadRef) :=
  match result with
  | None => mret None
  | Some (thread, worker) =>
      s ← get;
      (if has_run (worker_at s worker) then connect_thread_started thread worker
       else log_warning (MsgNoRunMethod worker_id));;
      QThread_start thread;;
      mret (Some thread)
  end.

(** *** What happens to a service *)

(** Calls of its public methods, signals of workers that arrive, workers
    that run. *)
Inductive Call :=
  | CallStart (worker : WorkerRef) (worker_id : option string)
      (force_interrupt : bool)
  | CallStop (worker_id : string)
  | CallForceStop (worker_id : string)
  | Emitted (worker : WorkerRef) (sig : WorkerSignal) (payload : option string)
  | Ran (worker : WorkerRef).

Definition perform (c : Call) (s : World) : World :=
  match c with
  | CallStart worker worker_id force_interrupt =>
      after (start_worker worker worker_id force_interrupt) s
  | CallStop worker_id => after (stop_worker worker_id) s
  | CallForceStop worker_id => after (force_stop_worker worker_id) s
  | Emitted worker sig payload => after (emit worker sig payload) s
  | Ran worker => after (run worker) s
  end.

(** The state of a new service after the calls. *)
Definition reached (workers : gmap WorkerRef Worker)
    (confirms : ThreadRef → bool) (calls : list Call) : World :=
  foldl (λ s c, perform c s) (BaseService_init workers confirms) calls.

(** *** Vocabulary for the properties *)

(** The C++ object of thread [t] is deleted, or there is no such thread: a
    method call on it raises [RuntimeError]. *)
Definition gone (s : World) (t : ThreadRef) : Prop :=
  from_option (λ th, deleted th = true) True (threads s !! t).

(** The worker object was never handed to [deleteLater]: its C++ object is
    alive, and the calls [start_worker] makes on it go through. *)
Definition alive (s : World) (worker : WorkerRef) : Prop :=
  deleteLater_called (worker_at s worker) = false.

(** The thread object after a forced stop. *)
Definition terminated (th : QThread) : QThread :=
  mkThread false (deleted th) (interruption_requested th) (quit_requested th)
    true (started th) (finished_deleteLater th).

(** The thread object that [start_worker] leaves behind for a worker. *)
Definition started_thread (worker : WorkerRef) (wk : Worker) : QThread :=
  mkThread true false false false false
    (if has_run wk then [worker] else [])
    (if has_worker_task_finished wk then 1 else 0).

(** The events of the end of [start_worker]. *)
Definition start_events (t : ThreadRef) (worker_id : option string) (wk : Worker)
  : list Event :=
  (if has_run wk then [] else [EvLog WARNING (MsgNoRunMethod worker_id)]) ++
  [EvCall t start].

(** The computation only added events, none of them a [terminate]. *)
Definition calm (s s' : World) : Prop :=
  ∃ tr, trace s' = trace s ++ tr ∧ Forall (λ ev, ∀ t, ev ≠ EvCall t terminate) tr.

(** The registry is as it was. *)
Definition same_registry (s s' : World) : Prop :=
  _active_workers s' = _active_workers s.

(** The registry only lost entries and no thread object was made. *)
Definition shrinks (s s' : World) : Prop :=
  _active_workers s' ⊆ _active_workers s ∧ next_thread s' = next_thread s.

Definition quiet (s s' : World) : Prop := settles_workers s s' ∧ calm s s'.

(** Every registered thread is an object of the store, and no thread is
    registered under two keys. *)
Definition tidy (s : World) : Prop :=
  consistent s ∧
  map_Forall (λ _ e, is_Some (threads s !! e.1)) (_active_workers s) ∧
  (∀ k1 k2 e1 e2,
     _active_workers s !! k1 = Some e1 → _active_workers s !! k2 = Some e2 →
     e1.1 = e2.1 → k1 = k2).

Definition keeps_tidy (s s' : World) : Prop := tidy s → tidy s'.

(** *** Inputs *)

(** The thread of ["scan"] in [Scenario.scan_started]. *)
Definition scan_thread : QThread := mkThread true false false false false [0] 1.


(** And its object was deleted, as [finished] is connected to
    [deleteLater]. *)
Definition scan_thread_deleted : World :=
  set_thread 0 (mkThread false true false false false [0] 1)
    Scenario.scan_started.

(** Worker [1], whose body returns, is started under ["scan"]. *)
Definition scan_returning : World :=
  after (start_worker 1 (Some "scan") false) Scenario.two_workers.

(** Then worker [0] is started under ["load"]. *)
Definition two_started : World :=
  after (start_worker 0 (Some "load") false) scan_returning.

End Lifecycle.

(* ===================================================================== *)
(** * Part II: properties                                                 *)
(* ===================================================================== *)

(** ** [SimpleSignal]: connect, disconnect, emit *)
Module SimpleBusFacts.
Import SimpleBus SignalCalls.

Lemma list_remove_split (h : Handler) (l1 l2 : list Handler) :
  h ∉ l1 → list_remove h (l1 ++ h :: l2) = l1 ++ l2.
Proof.
  induction l1 as [|x l1 IH]; intros Hnot; simpl.
  - by rewrite decide_True.
  - apply not_elem_of_cons in Hnot as [Hne Hnot].
    rewrite decide_False by done. by rewrite IH.
Qed.

Lemma list_remove_subseteq (h : Handler) (l : list Handler) :
  list_remove h l ⊆ l.
Proof.
  induction l as [|x l IH]; simpl; [done|].
  case_decide; [by apply list_subseteq_cons | by apply list_subseteq_skip].
Qed.

Lemma list_remove_NoDup (h : Handler) (l : list Handler) :
  NoDup l → NoDup (list_remove h l) ∧ h ∉ list_remove h l.
Proof.
  induction 1 as [|x l Hx Hl IH]; simpl.
  - split; [constructor | by intros ?%elem_of_nil].
  - case_decide as Heq.
    + subst. done.
    + destruct IH as [IH1 IH2]. split.
      * constructor; [|done]. intros Hin. by apply list_remove_subseteq in Hin.
      * intros [?|?]%elem_of_cons; done.
Qed.

(** The handler list of a signal that is only touched through [connect] and
    [disconnect] never holds a callable twice. *)
Lemma connect_NoDup (h : Handler) (s : SimpleSignal) :
  NoDup (_handlers s) → NoDup (_handlers (connect h s)).
Proof.
  intros Hnd. unfold connect. case_decide; simpl; [done|].
  apply NoDup_app. split_and!; [done| |apply NoDup_singleton].
  intros x Hx ->%list_elem_of_singleton. done.
Qed.

Lemma disconnect_NoDup (h : option Handler) (s : SimpleSignal) :
  NoDup (_handlers s) → NoDup (_handlers (disconnect h s)).
Proof.
  intros Hnd. destruct h as [h|]; simpl; [|constructor].
  case_decide; simpl; [|done]. by apply list_remove_NoDup.
Qed.

Lemma list_remove_elem_of (h x : Handler) (l : list Handler) :
  NoDup l → x ∈ list_remove h l ↔ x ∈ l ∧ x ≠ h.
Proof.
  induction 1 as [|y l Hy Hl IH]; simpl.
  - split; [by intros ?%elem_of_nil | by intros [?%elem_of_nil _]].
  - case_decide as Heq.
    + subst y. rewrite elem_of_cons. split.
      * intros Hx. split; [by right|]. by intros ->.
      * by intros [[->|Hx] Hne].
    + rewrite !elem_of_cons, IH. split.
      * intros [->|[Hx Hne]]; split; auto.
      * intros [[->|Hx] Hne]; auto.
Qed.

(** *** The handler list is in the order of connection *)






Section EmitFacts.
Context {Args : Type}.
Variable call : Handler → Args → Store → outcome unit.

Lemma emit_loop_returns (l : list Handler) (args : Args)
    (log : list (Handler * Args)) (σ : Store) :
  (∀ h, h ∈ l → never_raises call h) →
  ∃ σ', emit_loop call l args log σ = Returns (log ++ ((λ h, (h, args)) <$> l)) σ'.
Proof.
  revert log σ. induction l as [|h l IH]; intros log σ Hok; simpl.
  - exists σ. by rewrite app_nil_r.
  - destruct (Hok h ltac:(left) args σ) as [σ1 ->].
    destruct (IH (log ++ [(h, args)]) σ1) as [σ' ->].
    { intros g Hg. apply Hok. by right. }
    exists σ'. by rewrite <- app_assoc.
Qed.

Lemma emit_loop_app (l1 l2 : list Handler) (args : Args)
    (log : list (Handler * Args)) (σ : Store) :
  emit_loop call (l1 ++ l2) args log σ =
  match emit_loop call l1 args log σ with
  | Returns log' σ' => emit_loop call l2 args log' σ'
  | Raises e log' σ' => Raises e log' σ'
  end.
Proof.
  revert log σ. induction l1 as [|h l1 IH]; intros log σ; simpl; [done|].
  destruct (call h args σ); [apply IH | done].
Qed.

Lemma emit_loop_returned (l : list Handler) (args : Args)
    (log log' : list (Handler * Args)) (σ σ' : Store) :
  emit_loop call l args log σ = Returns log' σ' →
  log' = log ++ ((λ h, (h, args)) <$> l).
Proof.
  revert log σ. induction l as [|h l IH]; intros log σ; simpl.
  - intros [= <- <-]. by rewrite app_nil_r.
  - destruct (call h args σ); [|done].
    intros ->%IH. by rewrite <- app_assoc.
Qed.

(** Whatever happens, the calls made are those of a prefix of the
    snapshot. *)
Lemma emit_loop_prefix (l : list Handler) (args : Args)
    (log : list (Handler * Args)) (σ : Store) :
  ∃ l1 l2, l = l1 ++ l2 ∧
    calls_of (emit_loop call l args log σ) = log ++ ((λ h, (h, args)) <$> l1).
Proof.
  revert log σ. induction l as [|h l IH]; intros log σ; simpl.
  - exists [], []. split; [done|]. simpl. by rewrite app_nil_r.
  - destruct (call h args σ) as [[] σ1|e [] σ1].
    + destruct (IH (log ++ [(h, args)]) σ1) as (l1 & l2 & -> & ->).
      exists (h :: l1), l2. by rewrite <- app_assoc.
    + exists [h], l. done.
Qed.
(** When the handlers of the snapshot return one after the other, the
    loop calls them all and returns. *)
Lemma all_return_emit_loop (l : list Handler) (args : Args)
    (log : list (Handler * Args)) (σ σ' : Store) :
  all_return call l args σ = Some σ' →
  emit_loop call l args log σ = Returns (log ++ ((λ h, (h, args)) <$> l)) σ'.
Proof.
  revert log σ. induction l as [|h l IH]; intros log σ; simpl.
  - intros [= <-]. by rewrite app_nil_r.
  - destruct (call h args σ) as [[] σ1|e [] σ1]; [|done].
    intros Hrest. rewrite (IH _ _ Hrest). by rewrite <- app_assoc.
Qed.

(** When the handlers before [g] in the snapshot return, [g] is called,
    whether it returns or raises and whatever those after it do. *)
Lemma emit_loop_reaches (before after : list Handler) (g : Handler)
    (args : Args) (σ σ1 : Store) :
  all_return call before args σ = Some σ1 →
  (g, args) ∈ calls_of (emit_loop call (before ++ g :: after) args [] σ).
Proof.
  intros Hbefore. rewrite emit_loop_app.
  rewrite (all_return_emit_loop _ _ _ _ _ Hbefore). simpl.
  destruct (call g args σ1) as [[] σ2|e [] σ2]; simpl.
  - destruct (emit_loop_prefix after args
                (((λ h, (h, args)) <$> before) ++ [(g, args)]) σ2)
      as (l1 & l2 & _ & ->).
    apply elem_of_app. left. apply elem_of_app. right.
    by apply list_elem_of_singleton.
  - apply elem_of_app. right. by apply list_elem_of_singleton.
Qed.
End EmitFacts.

(** C7: [connect] of a callable already in the list changes nothing, so
    connecting twice is connecting once; [disconnect(cb)] takes that callable
    out (its first occurrence, which is its only one in a list without
    repetition) and keeps the others in order; [disconnect()] empties the
    list; [disconnect] of an absent callable changes nothing.  Every case
    is a total function: no error is raised. *)
Theorem C7_connect_idempotent_disconnect (h : Handler) (s : SimpleSignal) :
  (h ∈ _handlers s → connect h s = s) ∧
  connect h (connect h s) = connect h s ∧
  (∀ l1 l2, _handlers s = l1 ++ h :: l2 → h ∉ l1 →
     _handlers (disconnect (Some h) s) = l1 ++ l2) ∧
  (NoDup (_handlers s) → h ∉ _handlers (disconnect (Some h) s)) ∧
  disconnect None s = mkSignal [] ∧
  (h ∉ _handlers s → disconnect (Some h) s = s).
Proof.
  split_and!.
  - intros Hin. unfold connect. by rewrite decide_True.
  - unfold connect at 2 3. case_decide as Hin.
    + unfold connect. by rewrite decide_True.
    + unfold connect. simpl. rewrite decide_True; [done|].
      apply elem_of_app. right. by left.
  - intros l1 l2 Hl Hnot. unfold disconnect.
    rewrite decide_True; simpl.
    + rewrite Hl. by apply list_remove_split.
    + rewrite Hl. apply elem_of_app. right. by left.
  - intros Hnd. unfold disconnect. case_decide; simpl; [|done].
    by apply list_remove_NoDup.
  - done.
  - intros Hnot. unfold disconnect. by rewrite decide_False.
Qed.

Lemma C7_witness :
  connect 1 (mkSignal [1; 2]) = mkSignal [1; 2] ∧
  _handlers (disconnect (Some 1) (mkSignal [1; 2])) = [2] ∧
  (1 ∉ _handlers (disconnect (Some 1) (mkSignal [1; 2]))) ∧
  disconnect (Some 3) (mkSignal [1; 2]) = mkSignal [1; 2].
Proof.
  destruct (C7_connect_idempotent_disconnect 1 (mkSignal [1; 2]))
    as (Hc & _ & Hd & Hn & _ & _).
  destruct (C7_connect_idempotent_disconnect 3 (mkSignal [1; 2]))
    as (_ & _ & _ & _ & _ & Ha).
  split_and!.
  - apply Hc. simpl. by left.
  - apply (Hd [] [2]); [done|]. by intros ?%elem_of_nil.
  - apply Hn. simpl. compute_done.
  - apply Ha. simpl. compute_done.
Defined.


Section EmitClaims.
Context {Args : Type}.
Variable call : Handler → Args → Store → outcome unit.


(** C2 as the code has it: when the handlers before [h] in the snapshot
    return and [h] raises, [emit] has called exactly those handlers and [h],
    in order; it calls no later handler and the exception leaves [emit]. *)
Theorem C2_emit_stops_at_first_raise (self : loc) (args : Args) (σ σ1 σ2 : Store)
    (before after : list Handler) (h : Handler) (e : Py.PyExc)
    (log1 : list (Handler * Args)) :
  _handlers (sig_at σ self) = before ++ h :: after →
  emit_loop call before args [] σ = Returns log1 σ1 →
  call h args σ1 = Raises e tt σ2 →
  emit call self args σ =
    Raises e ((λ g, (g, args)) <$> (before ++ [h])) σ2.
Proof.
  intros Hl Hbefore Hraise. unfold emit. rewrite Hl, emit_loop_app, Hbefore.
  simpl. rewrite Hraise. apply emit_loop_returned in Hbefore as ->.
  by rewrite fmap_app.
Qed.

(** C10 as the code has it: a handler that is not connected when [emit]
    begins is not called by this [emit], whatever the handlers called do; if
    it is connected when the [emit] is over, the next [emit] calls it
    provided the handlers before it in the list return as that [emit] calls
    them. *)
Theorem C10_handler_connected_during_emit (self : loc) (args : Args) (σ : Store)
    (g : Handler) :
  g ∉ _handlers (sig_at σ self) →
  let σ' := store_of (emit call self args σ) in
  (g ∉ (calls_of (emit call self args σ)).*1) ∧
  (∀ (args' : Args) (before after : list Handler) (σ1 : Store),
     _handlers (sig_at σ' self) = before ++ g :: after →
     all_return call before args' σ' = Some σ1 →
     (g, args') ∈ calls_of (emit call self args' σ')).
Proof.
  intros Hnot. split.
  - unfold emit.
    destruct (emit_loop_prefix call (_handlers (sig_at σ self)) args [] σ)
      as (l1 & l2 & Hl & ->).
    simpl. rewrite <- list_fmap_compose. simpl.
    rewrite list_fmap_id. intros Hin. apply Hnot. rewrite Hl.
    apply elem_of_app. by left.
  - generalize (store_of (emit call self args σ)).
    intros σ' args' before after σ1 Hl Hbefore. unfold emit. rewrite Hl.
    by eapply emit_loop_reaches.
Qed.

End EmitClaims.

(** A handler raises: the signal at [0] has handlers [1] and [2]; handler
    [1] raises, the exception leaves [emit] and handler [2] is not called. *)
Lemma C2_counterexample :
  _handlers (sig_at Scenario.two_handlers 0) = [1; 2] ∧
  emit Scenario.first_raises 0 tt Scenario.two_handlers =
    Raises Scenario.boom [(1, tt)] Scenario.two_handlers.
Proof. split; reflexivity. Qed.

Lemma C2_witness :
  emit Scenario.first_raises 0 tt Scenario.two_handlers =
    Raises Scenario.boom [(1, tt)] Scenario.two_handlers.
Proof.
  apply (C2_emit_stops_at_first_raise Scenario.first_raises 0 tt
           Scenario.two_handlers Scenario.two_handlers Scenario.two_handlers
           [] [2] 1 Scenario.boom []); reflexivity.
Defined.



(** Handler [1] connects handler [7] during the first emit and raises in
    the second: [7], connected since the first emit, is not called by the
    second. *)
Lemma C10_counterexample :
  (7 ∉ _handlers (sig_at Scenario.two_handlers 0)) ∧
  7 ∈ _handlers
        (sig_at (store_of (emit Scenario.connecting_then_raising 0 tt
                             Scenario.two_handlers)) 0) ∧
  (7 ∉ (calls_of (emit Scenario.connecting_then_raising 0 tt
                    (store_of (emit Scenario.connecting_then_raising 0 tt
                                 Scenario.two_handlers)))).*1).
Proof. split_and!; compute_done. Qed.

(** Handler [1] connects handler [7] during the emit: [7] is not called by
    that emit and is called by the next, in which [1] and [2] return. *)
Lemma C10_witness :
  (7 ∉ (calls_of (emit Scenario.connecting 0 tt Scenario.two_handlers)).*1) ∧
  (7, tt) ∈ calls_of (emit Scenario.connecting 0 tt
                        (store_of (emit Scenario.connecting 0 tt
                                     Scenario.two_handlers))).
Proof.
  destruct (C10_handler_connected_during_emit Scenario.connecting 0 tt
              Scenario.two_handlers 7) as [H1 H2].
  - compute_done.
  - split; [exact H1|].
    apply (H2 tt [1; 2] []
             (store_of (emit Scenario.connecting 0 tt Scenario.two_handlers))).
    + reflexivity.
    + vm_compute. reflexivity.
Defined.

End SimpleBusFacts.

(** ** [disconnect_all] of both backends, and the sharing of signals *)
Module BusFacts.
Import SimpleBus SignalCalls.

(** *** Inline backend *)

Lemma sig_at_sig_call (ℓ ℓ' : loc) (f : SimpleSignal → SimpleSignal) (σ : Store) :
  sig_at (sig_call ℓ' f σ) ℓ = if decide (ℓ' = ℓ) then f (sig_at σ ℓ') else sig_at σ ℓ.
Proof.
  unfold sig_at, sig_call. simpl. case_decide as Heq.
  - subst. by rewrite lookup_insert_eq.
  - by rewrite lookup_insert_ne.
Qed.

Lemma disconnect_attr_other (signal_name : option string) (g : group)
    (σ : Store) (attr : string) :
  attr ∉ (fields g).*1 → disconnect_attr signal_name g σ attr = σ.
Proof.
  intros Hnot. unfold disconnect_attr, getattr.
  destruct (list_find _ (fields g)) as [[i [n ℓ]]|] eqn:Hfind.
  - apply list_find_Some in Hfind as (Hi & Hn & _). simpl in Hn. subst n.
    exfalso. apply Hnot. apply list_elem_of_fmap. exists (attr, ℓ).
    split; [done|]. by eapply list_elem_of_lookup_2.
  - by case_decide.
Qed.

Lemma object_dir_no_field (g : group) :
  Forall (λ attr, attr ∉ (fields g).*1) object_dir.
Proof. destruct g as [[]|[]|[]]; simpl; compute_done. Qed.

Lemma disconnect_group (signal_name : option string) (g : group) (σ : Store) :
  foldl (disconnect_attr signal_name g) σ (dir g) =
  foldl (disconnect_field signal_name) σ (fields g).
Proof.
  unfold dir. rewrite foldl_app.
  assert (foldl (disconnect_attr signal_name g) σ object_dir = σ) as ->.
  { pose proof (object_dir_no_field g) as Hno.
    induction Hno as [|attr l Hattr _ IH]; simpl; [done|].
    by rewrite disconnect_attr_other. }
  destruct g as [[i e n]|[i m]|[i a d]]; reflexivity.
Qed.

Lemma disconnect_fields_sig_at (signal_name : option string)
    (fs : list (string * loc)) (σ : Store) (ℓ : loc) :
  sig_at (foldl (disconnect_field signal_name) σ fs) ℓ =
  if cleared signal_name fs ℓ then mkSignal [] else sig_at σ ℓ.
Proof.
  revert σ. induction fs as [|[n ℓ'] fs IH]; intros σ; simpl; [done|].
  rewrite IH. unfold disconnect_field. simpl.
  destruct (cleared signal_name fs ℓ); [by rewrite orb_true_r|].
  rewrite orb_false_r.
  destruct (name_matches signal_name n); simpl; [|done].
  rewrite sig_at_sig_call. case_decide.
  - by rewrite bool_decide_eq_true_2.
  - by rewrite bool_decide_eq_false_2.
Qed.

Lemma disconnect_all_fields (self : SimpleEventBus)
    (signal_name : option string) (σ : Store) :
  disconnect_all self signal_name σ =
  foldl (disconnect_field signal_name) σ (g ← _signal_groups self; fields g).
Proof.
  unfold disconnect_all. generalize (_signal_groups self). intros gs.
  revert σ. induction gs as [|g gs IH]; intros σ; simpl; [done|].
  rewrite foldl_app, <- disconnect_group. apply IH.
Qed.

(** The shape of a bus made from the classes of the module: new identities
    for the bus and its three groups, the five class-level signals in the
    fields. *)
Lemma SimpleEventBus_init_shape (σ0 σ1 : Store) :
  (SimpleEventBus_init (import_module σ0).1 σ1).1 =
  let n := next_loc σ0 in
  let i := next_loc σ1 in
  let sys := mk_System (1 + i) (3 + n) (4 + n) in
  let lg := mk_Log (2 + i) n in
  let dt := mk_Data (3 + i) (1 + n) (2 + n) in
  mkBus i sys lg dt [GSystem sys; GLog lg; GData dt].
Proof. reflexivity. Qed.

Ltac decide_locs :=
  repeat match goal with
    | |- context [bool_decide (?a = ?b)] =>
        first [ rewrite (bool_decide_eq_true_2 (a = b)) by lia
              | rewrite (bool_decide_eq_false_2 (a = b)) by lia ]
    end.

Lemma SimpleEventBus_disconnects_by_name (signal_name : option string)
    (b : SimpleEventBus * Store) :
  Bus.bus_built b → Bus.disconnects_by_name signal_name b.
Proof.
  destruct b as [b σ]. intros (σ0 & σ1 & Hb).
  rewrite SimpleEventBus_init_shape in Hb. simpl in Hb. subst b.
  unfold Bus.disconnects_by_name. simpl.
  rewrite !disconnect_all_fields, !disconnect_fields_sig_at.
  unfold cleared. simpl. decide_locs.
  rewrite ?andb_true_r, ?andb_false_r, ?orb_false_r. simpl.
  by repeat destruct (name_matches signal_name _).
Qed.

(** *** Threaded backend *)

Lemma disconnect_method_spec (signal_name : option string)
    (g : QtBus.QObjectGroup) (m : QtBus.QMetaMethod) (a : string) :
  QtBus.metaObject (QtBus.disconnect_method signal_name g m) = QtBus.metaObject g ∧
  QtBus.connections (QtBus.disconnect_method signal_name g m) !! a =
    if QtBus.hits signal_name a m then (λ _, []) <$> QtBus.connections g !! a
    else QtBus.connections g !! a.
Proof.
  unfold QtBus.disconnect_method, QtBus.hits.
  destruct (QtBus.methodType m); try done.
  destruct (name_matches signal_name (QtBus.name m));
    [|by rewrite andb_false_r].
  rewrite andb_true_r.
  destruct (QtBus.connections g !! QtBus.name m) as [slots|] eqn:Hm.
  - destruct slots as [|slot slots]; simpl.
    + split; [done|]. case_bool_decide as Ha; [|done].
      subst a. by rewrite Hm.
    + split; [done|]. case_bool_decide as Ha.
      * subst a. by rewrite lookup_insert_eq, Hm.
      * by rewrite lookup_insert_ne.
  - split; [done|]. case_bool_decide as Ha; [|done]. subst a. by rewrite Hm.
Qed.

Lemma disconnect_methods_spec (signal_name : option string)
    (ms : list QtBus.QMetaMethod) (g : QtBus.QObjectGroup) (a : string) :
  QtBus.metaObject (foldl (QtBus.disconnect_method signal_name) g ms) =
    QtBus.metaObject g ∧
  QtBus.connections (foldl (QtBus.disconnect_method signal_name) g ms) !! a =
    if existsb (QtBus.hits signal_name a) ms then (λ _, []) <$> QtBus.connections g !! a
    else QtBus.connections g !! a.
Proof.
  revert g. induction ms as [|m ms IH]; intros g; simpl; [done|].
  destruct (IH (QtBus.disconnect_method signal_name g m)) as [-> ->].
  destruct (disconnect_method_spec signal_name g m a) as [-> ->].
  split; [done|].
  destruct (QtBus.hits signal_name a m); simpl; [|done].
  destruct (existsb _ ms); [|done].
  by destruct (QtBus.connections g !! a).
Qed.

Lemma hits_name (signal_name : option string) (ms : list QtBus.QMetaMethod)
    (m : QtBus.QMetaMethod) :
  m ∈ ms → QtBus.methodType m = QtBus.Signal →
  existsb (QtBus.hits signal_name (QtBus.name m)) ms =
  name_matches signal_name (QtBus.name m).
Proof.
  intros Hin Hsig.
  destruct (name_matches signal_name (QtBus.name m)) eqn:Hmatch.
  - apply existsb_exists. exists m. split; [by apply list_elem_of_In|].
    unfold QtBus.hits. rewrite Hsig, Hmatch. by rewrite bool_decide_eq_true_2.
  - apply not_true_is_false. intros (m' & _ & Hhit)%existsb_exists.
    unfold QtBus.hits in Hhit. destruct (QtBus.methodType m'); try done.
    apply andb_true_iff in Hhit as [Hname%bool_decide_eq_true Hm'].
    rewrite Hname in Hm'. congruence.
Qed.

Lemma disconnect_group_signals_sub (signal_name : option string)
    (g : QtBus.QObjectGroup) (l : list QtBus.QMetaMethod) :
  l ⊆ QtBus.metaObject g →
  omap (λ m, match QtBus.methodType m with
             | QtBus.Signal =>
                 (λ slots, (QtBus.name m, slots)) <$>
                   QtBus.connections
                     (foldl (QtBus.disconnect_method signal_name) g
                        (QtBus.metaObject g)) !! QtBus.name m
             | _ => None
             end) l =
  (λ s, (s.1, if name_matches signal_name s.1 then [] else s.2)) <$>
    omap (λ m, match QtBus.methodType m with
               | QtBus.Signal =>
                   (λ slots, (QtBus.name m, slots)) <$>
                     QtBus.connections g !! QtBus.name m
               | _ => None
               end) l.
Proof.
  induction l as [|m l IH]; intros Hsub; [done|].
  specialize (IH ltac:(intros m' Hm'; apply Hsub; by right)).
  unfold omap in *. simpl. rewrite IH. clear IH.
  destruct (QtBus.methodType m) eqn:Htype; try done.
  destruct (disconnect_methods_spec signal_name (QtBus.metaObject g) g
              (QtBus.name m)) as [_ ->].
  rewrite hits_name; [|apply Hsub; by left|done].
  destruct (name_matches signal_name (QtBus.name m)) eqn:Hmatch;
    destruct (QtBus.connections g !! QtBus.name m); simpl; rewrite ?Hmatch; done.
Qed.

Lemma disconnect_group_signals (signal_name : option string)
    (g : QtBus.QObjectGroup) :
  Bus.QObjectGroup_signals
    (foldl (QtBus.disconnect_method signal_name) g (QtBus.metaObject g)) =
  (λ s, (s.1, if name_matches signal_name s.1 then [] else s.2)) <$>
    Bus.QObjectGroup_signals g.
Proof.
  unfold Bus.QObjectGroup_signals.
  destruct (disconnect_methods_spec signal_name (QtBus.metaObject g) g
              EmptyString) as [-> _].
  by apply disconnect_group_signals_sub.
Qed.

Lemma EventBusBackend_disconnects_by_name (signal_name : option string)
    (b : QtBus._EventBusBackend) :
  Bus.bus_built b → Bus.disconnects_by_name signal_name b.
Proof.
  destruct b as [sys lg dt gs]. simpl. intros ->.
  unfold Bus.disconnects_by_name. simpl.
  rewrite !app_nil_r, !fmap_app, !disconnect_group_signals. done.
Qed.

(** C8: for both backends and every signal name [n], [disconnect_all(n)]
    leaves the signals named [n], in whatever group, without handlers and
    every signal of another name with the handlers it had;
    [disconnect_all()] leaves every signal of every group without
    handlers. *)
Theorem C8_disconnect_all_by_name :
  (∀ (b : SimpleEventBus * Store), Bus.bus_built b →
     (∀ n, Bus.bus_signals (Bus.bus_disconnect_all (Some n) b) =
           (λ s, (s.1, if decide (s.1 = n) then [] else s.2)) <$> Bus.bus_signals b) ∧
     Bus.bus_signals (Bus.bus_disconnect_all None b) =
       (λ s, (s.1, [])) <$> Bus.bus_signals b) ∧
  (∀ (b : QtBus._EventBusBackend), Bus.bus_built b →
     (∀ n, Bus.bus_signals (Bus.bus_disconnect_all (Some n) b) =
           (λ s, (s.1, if decide (s.1 = n) then [] else s.2)) <$> Bus.bus_signals b) ∧
     Bus.bus_signals (Bus.bus_disconnect_all None b) =
       (λ s, (s.1, [])) <$> Bus.bus_signals b).
Proof.
  split; intros b Hb; split; try intros n.
  - rewrite (SimpleEventBus_disconnects_by_name (Some n) b Hb).
    apply list_fmap_ext. intros _ [a hs] _. simpl.
    case_bool_decide; [by rewrite decide_True | by rewrite decide_False].
  - by rewrite (SimpleEventBus_disconnects_by_name None b Hb).
  - rewrite (EventBusBackend_disconnects_by_name (Some n) b Hb).
    apply list_fmap_ext. intros _ [a hs] _. simpl.
    case_bool_decide; [by rewrite decide_True | by rewrite decide_False].
  - by rewrite (EventBusBackend_disconnects_by_name None b Hb).
Qed.

Example disconnect_all_message_inline :
  Bus.bus_signals (Scenario.bus2, Scenario.subscribed) =
    [("system_error_occurred", [2]); ("system_notification_received", []);
     ("message", [1]);
     ("sequence_activity_changed", []); ("sequence_data_loaded", [])] ∧
  Bus.bus_signals
    (Bus.bus_disconnect_all (Some "message") (Scenario.bus2, Scenario.subscribed)) =
    [("system_error_occurred", [2]); ("system_notification_received", []);
     ("message", []);
     ("sequence_activity_changed", []); ("sequence_data_loaded", [])].
Proof. split; vm_compute; reflexivity. Qed.

Example disconnect_all_message_threaded :
  Bus.bus_signals Scenario.qt_subscribed =
    [("destroyed", []); ("destroyed", []); ("objectNameChanged", []);
     ("system_error_occurred", [2]); ("system_notification_received", []);
     ("destroyed", []); ("destroyed", []); ("objectNameChanged", []);
     ("message", [1]);
     ("destroyed", []); ("destroyed", []); ("objectNameChanged", []);
     ("sequence_activity_changed", []); ("sequence_data_loaded", [])] ∧
  Bus.bus_signals (Bus.bus_disconnect_all None Scenario.qt_subscribed) =
    (λ s, (s.1, [])) <$> Bus.bus_signals Scenario.qt_subscribed.
Proof. split; vm_compute; reflexivity. Qed.

Lemma C8_witness :
  Bus.bus_signals
    (Bus.bus_disconnect_all (Some "message") (Scenario.bus2, Scenario.subscribed)) =
    [("system_error_occurred", [2]); ("system_notification_received", []);
     ("message", []);
     ("sequence_activity_changed", []); ("sequence_data_loaded", [])] ∧
  Bus.bus_signals (Bus.bus_disconnect_all None Scenario.qt_subscribed) =
    (λ s, (s.1, [])) <$> Bus.bus_signals Scenario.qt_subscribed.
Proof.
  destruct C8_disconnect_all_by_name as [Hinline Hthreaded].
  destruct (Hinline (Scenario.bus2, Scenario.subscribed)) as [Hname _].
  { eexists empty_store, _. reflexivity. }
  destruct (Hthreaded Scenario.qt_subscribed) as [_ Hall]; [reflexivity|].
  split; [|exact Hall].
  rewrite Hname. vm_compute. reflexivity.
Defined.

(** *** Sharing of the class-level signals *)

Lemma connect_elem (h : Handler) (s : SimpleSignal) : h ∈ _handlers (connect h s).
Proof.
  unfold connect. case_decide; [done|]. simpl.
  apply elem_of_app. right. by left.
Qed.

Lemma bus_signal_field (b : SimpleEventBus) (group_name signal_name : string)
    (ℓ : loc) :
  bus_group b group_name ∈ (Some <$> _signal_groups b) ∨ bus_group b group_name = None →
  bus_signal b group_name signal_name = Some ℓ →
  (signal_name, ℓ) ∈ (g ← _signal_groups b; fields g).
Proof.
  unfold bus_signal. intros [Hin | ->]; [|done].
  destruct (bus_group b group_name) as [g|]; [|done]. simpl.
  apply list_elem_of_fmap in Hin as (g' & [= <-] & Hg).
  unfold getattr.
  destruct (list_find _ (fields g)) as [[i [n ℓ']]|] eqn:Hfind;
    [|by case_decide].
  intros [= <-]. apply list_find_Some in Hfind as (Hi & Hn & _).
  simpl in Hn. subst n. apply list_elem_of_bind. exists g.
  split; [|done]. by eapply list_elem_of_lookup_2.
Qed.

(** C9 as the code has it: two buses made one after the other from the
    same module are different objects with different group objects, yet
    under every group name and signal name both reach the same signal
    object.  So a handler connected through the first bus is called by an
    emit through the second provided the handlers before it in the list
    return as that emit calls them, and [disconnect_all] on the first leaves
    the signal of the second without handlers. *)
Theorem C9_bus_instances_share_signals (σ0 σ1 σ2 : Store) :
  let cls := (import_module σ0).1 in
  let b1 := (SimpleEventBus_init cls σ1).1 in
  let b2 := (SimpleEventBus_init cls σ2).1 in
  next_loc (SimpleEventBus_init cls σ1).2 ≤ next_loc σ2 →
  (bus_id b1 ≠ bus_id b2 ∧
   _System_id (system b1) ≠ _System_id (system b2) ∧
   _Log_id (log b1) ≠ _Log_id (log b2) ∧
   _Data_id (data b1) ≠ _Data_id (data b2)) ∧
  ∀ group_name signal_name,
    bus_signal b1 group_name signal_name = bus_signal b2 group_name signal_name ∧
    ∀ sig1 sig2,
      bus_signal b1 group_name signal_name = Some sig1 →
      bus_signal b2 group_name signal_name = Some sig2 →
      sig1 = sig2 ∧
      (∀ (Args : Type) (call : Handler → Args → Store → outcome unit)
         (h : Handler) (args : Args) (σ σ' : Store)
         (before after : list Handler),
         _handlers (sig_at (sig_call sig1 (connect h) σ) sig2) =
           before ++ h :: after →
         all_return call before args (sig_call sig1 (connect h) σ) = Some σ' →
         (h, args) ∈ calls_of (emit call sig2 args (sig_call sig1 (connect h) σ))) ∧
      (∀ (h : Handler) (σ : Store),
         h ∈ _handlers (sig_at (sig_call sig1 (connect h) σ) sig2) ∧
         _handlers (sig_at (disconnect_all b1 None (sig_call sig1 (connect h) σ))
                      sig2) = []).
Proof.
  intros cls b1 b2 Hlater.
  assert (∀ group_name signal_name,
            bus_signal b1 group_name signal_name =
            bus_signal b2 group_name signal_name) as Hsame.
  { intros group_name signal_name. subst b1 b2 cls.
    rewrite !SimpleEventBus_init_shape. unfold bus_signal, bus_group. simpl.
    by repeat case_decide. }
  split.
  { subst b1 b2 cls. simpl in *. split_and!; lia. }
  intros group_name signal_name. split; [apply Hsame|].
  intros sig1 sig2 H1 H2.
  assert (sig1 = sig2) as <- by (rewrite Hsame in H1; congruence).
  split; [done|]. split.
  - intros Args call h args σ σ' before after Hl Hbefore. unfold emit.
    rewrite Hl. by eapply SimpleBusFacts.emit_loop_reaches.
  - intros h σ. split.
    + rewrite sig_at_sig_call, decide_True by done. apply connect_elem.
    + rewrite disconnect_all_fields, disconnect_fields_sig_at.
      assert (cleared None (g ← _signal_groups b1; fields g) sig1 = true) as ->;
        [|done].
      apply existsb_exists. exists (signal_name, sig1). split.
      * apply list_elem_of_In. eapply bus_signal_field; [|done].
        subst b1 cls. rewrite SimpleEventBus_init_shape.
        unfold bus_group. simpl. repeat case_decide; try (by right).
        all: left; set_solver.
      * simpl. by rewrite bool_decide_eq_true_2.
Qed.

(** Handler [1], which raises, is connected to [log.message]; handler
    [5] is then connected to it through the first bus: an emit through the
    second bus calls handler [1] only. *)
Lemma C9_counterexample :
  bus_signal Scenario.bus1 "log" "message" =
    bus_signal Scenario.bus2 "log" "message" ∧
  5 ∈ _handlers
        (sig_at (sig_call (message (log Scenario.bus1)) (connect 5)
                   Scenario.subscribed)
           (message (log Scenario.bus2))) ∧
  calls_of (emit Scenario.first_raises (message (log Scenario.bus2)) tt
              (sig_call (message (log Scenario.bus1)) (connect 5)
                 Scenario.subscribed)) = [(1, tt)].
Proof. split_and!; [reflexivity | compute_done | reflexivity]. Qed.

(** With handlers that return, handler [5] connected through the first bus
    behind handler [1] is called by an emit through the second. *)
Lemma C9_witness :
  bus_signal Scenario.bus1 "log" "message" =
    bus_signal Scenario.bus2 "log" "message" ∧
  (5, tt) ∈ calls_of (emit Scenario.returning (message (log Scenario.bus2)) tt
                        (sig_call (message (log Scenario.bus1)) (connect 5)
                           Scenario.subscribed)) ∧
  _handlers (sig_at (disconnect_all Scenario.bus1 None Scenario.subscribed)
               (message (log Scenario.bus2))) = [].
Proof.
  destruct (C9_bus_instances_share_signals empty_store
              (import_module empty_store).2
              (SimpleEventBus_init Scenario.classes (import_module empty_store).2).2)
    as [_ Hshare]; [simpl; lia|].
  destruct (Hshare "log" "message") as [Hsame Hsig].
  destruct (Hsig 0 0 eq_refl eq_refl) as (_ & Hemit & _).
  split; [exact Hsame|]. split.
  - apply (Hemit unit Scenario.returning 5 tt Scenario.subscribed
             (sig_call 0 (connect 5) Scenario.subscribed) [1] []).
    + reflexivity.
    + reflexivity.
  - vm_compute. reflexivity.
Defined.

End BusFacts.

(** ** The worker registry *)
Module ServiceFacts.
Import Service.

Ltac unfold_monad :=
  unfold log_info, log_warning, log_error, log_debug, log, get, modify, raise;
  unfold mbind, M_bind, mret, M_ret.

(** A method call on a live thread object goes through. *)
Lemma thread_call_live {A} (t : ThreadRef) (c : ThreadCall)
    (method : World → QThread → A * QThread) (s : World) (th : QThread) :
  threads s !! t = Some th → deleted th = false →
  thread_call t c method s =
  Ok (method (record (EvCall t c) s) th).1
     (set_thread t (method (record (EvCall t c) s) th).2 (record (EvCall t c) s)).
Proof.
  intros Hth Hlive. unfold thread_call. simpl. rewrite Hth, Hlive.
  by destruct (method _ th).
Qed.

Lemma entry_truthy (k : string) (s : World) :
  k ≠ EmptyString → entry (Some k) s = _active_workers s !! k.
Proof. intros Hk. unfold entry. simpl. by rewrite decide_False. Qed.

Lemma consistent_key (s : World) (k : string) (v : ThreadRef * WorkerRef) :
  consistent s → _active_workers s !! k = Some v → k ≠ EmptyString.
Proof. intros [Hkey _] Hk ->. congruence. Qed.

(** *** Running single steps *)

Lemma bind_Ok {A B} (m : M A) (f : A → M B) (s s' : World) (a : A) :
  m s = Ok a s' → (m ≫= f) s = f a s'.
Proof. intros H. unfold mbind, M_bind. by rewrite H. Qed.

Lemma bind_Err {A B} (m : M A) (f : A → M B) (s s' : World) (e : Py.PyExc) :
  m s = Err e s' → (m ≫= f) s = Err e s'.
Proof. intros H. unfold mbind, M_bind. by rewrite H. Qed.

Ltac world := cbn [_active_workers threads workers next_thread confirms trace].

Lemma log_run (message : LogMsg) (level : LogLevel) (s : World) :
  log message level s =
  Ok tt (mkWorld (_active_workers s) (threads s) (workers s) (next_thread s)
           (confirms s) (trace s ++ [EvLog level message])).
Proof. reflexivity. Qed.

Lemma thread_call_run {A} (t : ThreadRef) (c : ThreadCall)
    (method : World → QThread → A * QThread) (s : World) (th : QThread) :
  threads s !! t = Some th → deleted th = false →
  thread_call t c method s =
  Ok (method (record (EvCall t c) s) th).1
     (mkWorld (_active_workers s)
        (<[t := (method (record (EvCall t c) s) th).2]> (threads s))
        (workers s) (next_thread s) (confirms s) (trace s ++ [EvCall t c])).
Proof. intros Hth Hlive. by rewrite (thread_call_live _ _ _ _ th). Qed.

Lemma stop_thread_graceful (t : ThreadRef) (worker_id : option string)
    (s : World) (th : QThread) :
  threads s !! t = Some th → deleted th = false → running th = true →
  stop_thread (Some t) worker_id false s =
  Ok tt
    (mkWorld (_active_workers s)
       (<[t := asked_to_stop (confirms s t) th]> (threads s))
       (workers s) (next_thread s) (confirms s)
       (trace s ++ graceful_stop_events t worker_id (confirms s t))).
Proof.
  intros Hth Hlive Hrun.
  unfold stop_thread, try_except_RuntimeError.
  unfold QThread_isRunning, QThread_requestInterruption, QThread_quit,
    QThread_wait, log_info, log_warning.
  erewrite bind_Ok by (by apply thread_call_run). world. cbn [fst snd].
  rewrite Hrun.
  erewrite bind_Ok by apply log_run. world.
  erewrite bind_Ok
    by (apply thread_call_run; world; [apply lookup_insert_eq | done]).
  world. cbn [fst snd]. rewrite insert_insert_eq.
  erewrite bind_Ok
    by (apply thread_call_run; world; [apply lookup_insert_eq | done]).
  world. cbn [fst snd]. rewrite insert_insert_eq.
  erewrite bind_Ok
    by (apply thread_call_run; world; [apply lookup_insert_eq | done]).
  world. cbn [fst snd running interruption_requested_set quit_requested_set].
  rewrite Hrun, insert_insert_eq. unfold record. world.
  unfold graceful_stop_events, asked_to_stop.
  destruct (confirms s t); cbn [fst snd]; unfold mret, M_ret; rewrite ?log_run;
    world; rewrite <- !app_assoc; reflexivity.
Qed.

Lemma get_run (s : World) : get s = Ok s s.
Proof. reflexivity. Qed.

Lemma modify_run (f : World → World) (s : World) : modify f s = Ok tt (f s).
Proof. reflexivity. Qed.

Lemma remove_entry_present (k : string) (v : ThreadRef * WorkerRef) (s : World) :
  k ≠ EmptyString → _active_workers s !! k = Some v →
  remove_entry (Some k) s =
  Ok tt
    (mkWorld (delete k (_active_workers s)) (threads s) (workers s)
       (next_thread s) (confirms s)
       (trace s ++ [EvLog INFO (MsgRemoved (Some k))])).
Proof.
  intros Hne Hk. unfold remove_entry.
  erewrite bind_Ok by apply get_run.
  rewrite entry_truthy, Hk by done.
  erewrite bind_Ok by apply modify_run. reflexivity.
Qed.

Lemma remove_entry_absent (worker_id : option string) (s : World) :
  entry worker_id s = None → remove_entry worker_id s = Ok tt s.
Proof.
  intros Hk. unfold remove_entry.
  erewrite bind_Ok by apply get_run. by rewrite Hk.
Qed.

(** [_cleanup_worker(worker_id=k)] on an entry whose thread reports
    running: the graceful path, then the entry is removed. *)
Lemma cleanup_by_id_running (k : string) (t : ThreadRef) (w0 : WorkerRef)
    (s : World) (th : QThread) :
  k ≠ EmptyString → _active_workers s !! k = Some (t, w0) →
  threads s !! t = Some th → deleted th = false → running th = true →
  _cleanup_worker None None (Some k) false s =
  Ok tt
    (mkWorld (delete k (_active_workers s))
       (<[t := asked_to_stop (confirms s t) th]> (threads s))
       (workers s) (next_thread s) (confirms s)
       (trace s ++ graceful_stop_events t (Some k) (confirms s t) ++
          [EvLog INFO (MsgRemoved (Some k))])).
Proof.
  intros Hne Hk Hth Hlive Hrun. unfold _cleanup_worker.
  erewrite bind_Ok by apply get_run.
  rewrite entry_truthy, Hk by done.
  rewrite decide_False by (intros Hneq; by apply Hneq).
  erewrite bind_Ok by (by apply stop_thread_graceful).
  erewrite remove_entry_present by (done || (world; done)).
  world. by rewrite <- app_assoc.
Qed.

(** [_cleanup_worker(thread=t, worker=w, worker_id=k)] when the entry of
    [k] holds another thread: a warning, and nothing else. *)
Lemma cleanup_stale (k : string) (t stored_thread : ThreadRef)
    (w : option WorkerRef) (stored_worker : WorkerRef) (force : bool)
    (s : World) :
  k ≠ EmptyString → _active_workers s !! k = Some (stored_thread, stored_worker) →
  t ≠ stored_thread →
  _cleanup_worker (Some t) w (Some k) force s =
  Ok tt
    (mkWorld (_active_workers s) (threads s) (workers s) (next_thread s)
       (confirms s) (trace s ++ [EvLog WARNING (MsgThreadChanged (Some k))])).
Proof.
  intros Hne Hk Hdiff. unfold _cleanup_worker.
  erewrite bind_Ok by apply get_run.
  rewrite entry_truthy, Hk by done.
  rewrite decide_True by congruence. reflexivity.
Qed.

Lemma update_worker_run (w : WorkerRef) (f : Worker → Worker) (s : World) :
  update_worker w f s =
  Ok tt (mkWorld (_active_workers s) (threads s)
           (<[w := f (worker_at s w)]> (workers s)) (next_thread s)
           (confirms s) (trace s)).
Proof. reflexivity. Qed.

Lemma update_thread_run (t : ThreadRef) (f : QThread → QThread) (s : World)
    (th : QThread) :
  threads s !! t = Some th →
  update_thread t f s =
  Ok tt (mkWorld (_active_workers s) (<[t := f th]> (threads s)) (workers s)
           (next_thread s) (confirms s) (trace s)).
Proof. intros Hth. unfold update_thread, modify. by rewrite Hth. Qed.

Lemma worker_at_insert (w : WorkerRef) (wk : Worker) a b c d e f :
  worker_at (mkWorld a b (<[w := wk]> c) d e f) w = wk.
Proof. unfold worker_at. world. by rewrite lookup_insert_eq. Qed.

Lemma bind_assoc {A B C} (m : M A) (f : A → M B) (g : B → M C) (s : World) :
  ((m ≫= f) ≫= g) s = (m ≫= λ a, f a ≫= g) s.
Proof. unfold mbind, M_bind. by destruct (m s). Qed.

Lemma ret_bind {A B} (a : A) (f : A → M B) (s : World) :
  (mret a ≫= f) s = f a s.
Proof. reflexivity. Qed.

Ltac step_worker :=
  rewrite ?bind_assoc;
  erewrite bind_Ok by apply update_worker_run; world;
  rewrite ?worker_at_insert, ?insert_insert_eq.

Ltac step_with lem :=
  rewrite ?bind_assoc; erewrite bind_Ok by lem; world.

(** Steps 1 to 5 of [_setup_worker_thread] under a truthy key. *)
Lemma setup_new_thread_keyed (worker : WorkerRef) (k : string) (s : World) :
  k ≠ EmptyString →
  setup_new_thread worker (Some k) s =
  Ok (Some (next_thread s, worker))
    (mkWorld (<[k := (next_thread s, worker)]> (_active_workers s))
       (<[next_thread s :=
            mkThread false false false false false []
              (if has_worker_task_finished (worker_at s worker) then 1 else 0)]>
          (threads s))
       (<[worker := wired (next_thread s) worker (Some k) (worker_at s worker)]>
          (workers s))
       (S (next_thread s)) (confirms s)
       (trace s ++ [EvLog INFO (MsgSetupDone (Some k))])).
Proof.
  intros Hk. unfold setup_new_thread.
  unfold new_QThread at 1. unfold mbind at 1, M_bind at 1.
  unfold moveToThread, connect_error, connect_finished, connect_thread_finished.
  step_worker.
  change (worker_at (mkWorld _ _ (workers s) _ _ _) worker)
    with (worker_at s worker).
  erewrite bind_Ok by apply get_run. rewrite worker_at_insert.
  unfold Py.truthy. rewrite decide_False by done.
  unfold wired. unfold log_info.
  destruct (worker_at s worker) as [he hf hr es fs th dl pr].
  cbn [has_worker_error_occurred has_worker_task_finished Worker_moved].
  destruct he, hf; rewrite ?bind_assoc, ?ret_bind.
  - do 4 step_worker.
    step_with ltac:(apply update_thread_run; world; apply lookup_insert_eq).
    rewrite insert_insert_eq. step_worker.
    step_with ltac:(apply modify_run).
    step_with ltac:(apply log_run). unfold set_active_workers. world.
    unfold mret, M_ret. unfold Worker_finished_connected, Worker_error_connected.
    simpl. by rewrite <- !app_assoc.
  - do 2 step_worker. rewrite ?ret_bind.
    step_with ltac:(apply modify_run).
    step_with ltac:(apply log_run). unfold set_active_workers. world.
    unfold mret, M_ret. unfold Worker_finished_connected, Worker_error_connected.
    simpl. by rewrite <- !app_assoc, app_nil_r.
  - do 2 step_worker.
    step_with ltac:(apply update_thread_run; world; apply lookup_insert_eq).
    rewrite insert_insert_eq. step_worker.
    step_with ltac:(apply modify_run).
    step_with ltac:(apply log_run). unfold set_active_workers. world.
    unfold mret, M_ret. unfold Worker_finished_connected, Worker_error_connected.
    simpl. by rewrite <- !app_assoc, app_nil_r.
  - step_with ltac:(apply modify_run).
    step_with ltac:(apply log_run). unfold set_active_workers. world.
    unfold mret, M_ret. simpl. by rewrite !app_nil_r.
Qed.

(** The end of [start_worker], after a successful setup on a live thread. *)
Lemma start_worker_tail (worker : WorkerRef) (worker_id : option string)
    (force_interrupt : bool) (t : ThreadRef) (s s1 : World) (th : QThread) :
  _setup_worker_thread worker worker_id force_interrupt s = Ok (Some (t, worker)) s1 →
  threads s1 !! t = Some th → deleted th = false →
  start_worker worker worker_id force_interrupt s =
  Ok (Some t)
    (mkWorld (_active_workers s1)
       (<[t := running_set true
                 (if has_run (worker_at s1 worker)
                  then QThread_started_connected worker th else th)]> (threads s1))
       (workers s1) (next_thread s1) (confirms s1)
       (trace s1 ++
          (if has_run (worker_at s1 worker) then []
           else [EvLog WARNING (MsgNoRunMethod worker_id)]) ++
          [EvCall t start])).
Proof.
  intros Hsetup Hth Hlive. unfold start_worker.
  rewrite (bind_Ok _ _ _ _ _ Hsetup).
  erewrite bind_Ok by apply get_run.
  unfold connect_thread_started, log_warning, QThread_start.
  destruct (has_run (worker_at s1 worker)).
  - step_with ltac:(by apply update_thread_run).
    step_with ltac:(apply thread_call_run; world; [apply lookup_insert_eq|done]).
    cbn [fst snd]. by rewrite insert_insert_eq.
  - step_with ltac:(apply log_run).
    step_with ltac:(by apply thread_call_run).
    cbn [fst snd]. by rewrite <- app_assoc.
Qed.

Lemma setup_force_interrupt (worker : WorkerRef) (k : string) (t : ThreadRef)
    (w0 : WorkerRef) (s : World) (th : QThread) :
  k ≠ EmptyString → _active_workers s !! k = Some (t, w0) →
  threads s !! t = Some th → deleted th = false → running th = true →
  _setup_worker_thread worker (Some k) true s =
  Ok (Some (next_thread s, worker))
    (mkWorld (<[k := (next_thread s, worker)]> (_active_workers s))
       (<[next_thread s :=
            mkThread false false false false false []
              (if has_worker_task_finished (worker_at s worker) then 1 else 0)]>
          (<[t := asked_to_stop (confirms s t) th]> (threads s)))
       (<[worker := wired (next_thread s) worker (Some k) (worker_at s worker)]>
          (workers s))
       (S (next_thread s)) (confirms s)
       (trace s ++
          [EvCall t isRunning; EvLog WARNING (MsgInterruptExisting (Some k))] ++
          graceful_stop_events t (Some k) (confirms s t) ++
          [EvLog INFO (MsgRemoved (Some k)); EvLog INFO (MsgSetupDone (Some k))])).
Proof.
  intros Hne Hk Hth Hlive Hrun. unfold _setup_worker_thread.
  erewrite bind_Ok by apply get_run.
  rewrite entry_truthy, Hk by done.
  unfold QThread_isRunning, log_warning.
  step_with ltac:(by apply thread_call_run). cbn [fst snd]. rewrite Hrun.
  rewrite insert_id by done.
  step_with ltac:(apply log_run).
  step_with ltac:(by eapply cleanup_by_id_running).
  rewrite setup_new_thread_keyed by done. world.
  rewrite insert_delete_eq.
  change (worker_at (mkWorld _ _ (workers s) _ _ _) worker)
    with (worker_at s worker).
  by rewrite <- !app_assoc.
Qed.

(** *** What every step of the cleanup keeps *)

#[local] Instance settles_preorder : PreOrder settles.
Proof.
  split.
  - intros s. by split_and!.
  - intros s1 s2 s3 (Ha & Hb & Hc & Hd) (Ha' & Hb' & Hc' & Hd'). split_and!.
    + by etrans.
    + congruence.
    + congruence.
    + intros t. by rewrite Hd', Hd.
Qed.

#[local] Instance settles_workers_preorder : PreOrder settles_workers.
Proof.
  split.
  - intros s. by split.
  - intros s1 s2 s3 [Ha Hb] [Ha' Hb']. split; [by etrans | congruence].
Qed.

Lemma emissions_app (tr1 tr2 : list Event) :
  emissions (tr1 ++ tr2) = emissions tr1 ++ emissions tr2.
Proof. apply omap_app. Qed.

Lemma settles_record (ev : Event) (s : World) :
  (∀ w sig payload, ev ≠ EvEmit w sig payload) →
  settles_workers s (record ev s).
Proof.
  intros Hev. split; [|done]. split_and!; try done.
  unfold record. world. rewrite emissions_app.
  destruct ev; simpl; rewrite ?app_nil_r; try done. by destruct (Hev worker sig payload).
Qed.

Lemma settles_set_thread (t : ThreadRef) (th th' : QThread) (s : World) :
  threads s !! t = Some th → settles_workers s (set_thread t th' s).
Proof.
  intros Hth. split; [|done]. split_and!; try done.
  intros t'. unfold set_thread. world.
  destruct (decide (t = t')) as [<-|Hne].
  - rewrite lookup_insert_eq, Hth. split; eauto.
  - by rewrite lookup_insert_ne.
Qed.

Lemma returns_keeps (R : relation World) {A} (m : M A) : returns R m → keeps R m.
Proof. intros H s. by destruct (H s) as (a & s' & -> & HR). Qed.

Section Keeps.
Context (R : relation World) `{!PreOrder R}.

Lemma keeps_ret {A} (a : A) : keeps R (mret a).
Proof. intros s. simpl. reflexivity. Qed.

Lemma keeps_bind {A B} (m : M A) (f : A → M B) :
  keeps R m → (∀ a, keeps R (f a)) → keeps R (m ≫= f).
Proof.
  intros Hm Hf s. unfold mbind, M_bind. specialize (Hm s).
  destruct (m s) as [a s'|e s']; [|done].
  specialize (Hf a s'). destruct (f a s') as [b s''|e s''].
  - by etrans.
  - destruct Hf. split; [by etrans | done].
Qed.

Lemma returns_ret {A} (a : A) : returns R (mret a).
Proof. intros s. by exists a, s. Qed.

Lemma returns_bind {A B} (m : M A) (f : A → M B) :
  returns R m → (∀ a, returns R (f a)) → returns R (m ≫= f).
Proof.
  intros Hm Hf s. destruct (Hm s) as (a & s' & Hms & HR).
  destruct (Hf a s') as (b & s'' & Hfs & HR').
  exists b, s''. split; [by rewrite (bind_Ok _ _ _ _ _ Hms) | by etrans].
Qed.

Lemma returns_get_bind {B} (f : World → M B) :
  (∀ s, returns R (f s)) → returns R (get ≫= f).
Proof. intros Hf s. apply (Hf s s). Qed.

Lemma keeps_get_bind {B} (f : World → M B) :
  (∀ s, keeps R (f s)) → keeps R (get ≫= f).
Proof. intros Hf s. apply (Hf s s). Qed.

Lemma returns_modify (f : World → World) :
  (∀ s, R s (f s)) → returns R (modify f).
Proof. intros Hf s. by exists tt, (f s). Qed.

(** [try ... except RuntimeError] around a body that keeps [R]. *)
Lemma returns_try (body handler : M unit) :
  keeps R body → returns R handler →
  returns R (try_except_RuntimeError body handler).
Proof.
  intros Hbody Hhandler s. unfold try_except_RuntimeError.
  specialize (Hbody s). destruct (body s) as [[] s'|e s'].
  - by exists tt, s'.
  - destruct Hbody as [HR ->].
    destruct (Hhandler s') as (a & s'' & -> & HR'). exists a, s''.
    split; [done | by etrans].
Qed.

(** What Qt does around a slot. *)
Lemma returns_slot_boundary (body : M unit) :
  keeps R body → returns R (slot_boundary body).
Proof.
  intros Hbody s. unfold slot_boundary. specialize (Hbody s).
  destruct (body s) as [[] s'|e s']; exists tt, s'; [done|]. by destruct Hbody.
Qed.
End Keeps.

(** *** The cleanup never raises and only settles *)

Ltac use lem := apply lem; try apply _.

Lemma returns_log (message : LogMsg) (level : LogLevel) :
  returns settles_workers (log message level).
Proof. apply returns_modify. intros s. by apply settles_record. Qed.

Lemma keeps_thread_call {A} (t : ThreadRef) (c : ThreadCall)
    (method : World → QThread → A * QThread) :
  keeps settles_workers (thread_call t c method).
Proof.
  intros s. unfold thread_call.
  assert (settles_workers s (record (EvCall t c) s)) as Hrec
    by by apply settles_record.
  destruct (threads (record (EvCall t c) s) !! t) as [th|] eqn:Hth; [|done].
  destruct (deleted th); [done|].
  destruct (method _ th) as [a th']. etrans; [done|].
  by eapply settles_set_thread.
Qed.

Lemma returns_stop_thread (target_thread : option ThreadRef)
    (worker_id : option string) (force : bool) :
  returns settles_workers (stop_thread target_thread worker_id force).
Proof.
  unfold stop_thread. use returns_try; [|apply returns_log].
  destruct target_thread as [t|]; [|use keeps_ret].
  use keeps_bind; [apply keeps_thread_call|]. intros [].
  2: use keeps_ret.
  use keeps_bind; [apply returns_keeps, returns_log|]. intros _.
  destruct force.
  - use keeps_bind; [apply returns_keeps, returns_log|]. intros _.
    use keeps_bind; [apply keeps_thread_call|]. intros _.
    use keeps_bind; [apply keeps_thread_call|]. intros _.
    use keeps_ret.
  - use keeps_bind; [apply keeps_thread_call|]. intros _.
    use keeps_bind; [apply keeps_thread_call|]. intros _.
    use keeps_bind; [apply keeps_thread_call|]. intros [].
    + use keeps_ret.
    + apply returns_keeps, returns_log.
Qed.

Lemma returns_remove_entry (worker_id : option string) :
  returns settles_workers (remove_entry worker_id).
Proof.
  unfold remove_entry. apply returns_get_bind. intros s.
  destruct (entry worker_id s).
  - use returns_bind; [|intros _; apply returns_log].
    apply returns_modify. intros s0. split; [|done]. split_and!; try done.
    unfold set_active_workers. world. apply delete_subseteq.
  - use returns_ret.
Qed.

Lemma returns_cleanup_worker (thread : option ThreadRef)
    (worker : option WorkerRef) (worker_id : option string) (force : bool) :
  returns settles_workers (_cleanup_worker thread worker worker_id force).
Proof.
  unfold _cleanup_worker. apply returns_get_bind. intros s.
  destruct (entry worker_id s) as [[stored_thread stored_worker]|].
  - case_decide.
    + apply returns_log.
    + use returns_bind; [apply returns_stop_thread|].
      intros _. apply returns_remove_entry.
  - use returns_bind; [apply returns_stop_thread|].
    intros _. apply returns_remove_entry.
Qed.

(** [_cleanup_worker(worker_id=k)] leaves no entry under [k]. *)
Lemma cleanup_by_id_removes (k : string) (force : bool) (s : World) :
  k ≠ EmptyString →
  ∃ s', _cleanup_worker None None (Some k) force s = Ok tt s' ∧
        _active_workers s' !! k = None ∧ settles_workers s s'.
Proof.
  intros Hne. unfold _cleanup_worker.
  rewrite (bind_Ok _ _ _ _ _ (get_run s)).
  assert (∀ target,
    ∃ s', (stop_thread target (Some k) force ≫= λ _, remove_entry (Some k)) s =
            Ok tt s' ∧
          _active_workers s' !! k = None ∧ settles_workers s s') as Hgo.
  { intros target.
    destruct (returns_stop_thread target (Some k) force s)
      as ([] & s1 & Hstop & Hs1).
    rewrite (bind_Ok _ _ _ _ _ Hstop).
    destruct (_active_workers s1 !! k) as [v|] eqn:Hk.
    - rewrite (remove_entry_present k v) by done. eexists. split; [done|].
      world. split; [apply lookup_delete_eq|].
      etrans; [done|]. split; [|done]. split_and!; try done.
      + world. apply delete_subseteq.
      + world. rewrite emissions_app. simpl. by rewrite app_nil_r.
    - assert (entry (Some k) s1 = None) as Hnone
        by (by rewrite entry_truthy by done).
      rewrite (remove_entry_absent _ _ Hnone).
      by exists s1. }
  rewrite entry_truthy by done.
  destruct (_active_workers s !! k) as [[stored_thread stored_worker]|];
    [|apply Hgo].
  rewrite decide_False by (intros Hneq; by apply Hneq). apply Hgo.
Qed.

(** Slots return, and settle. *)
Lemma returns_call_slot (slot : Slot) (payload : option string) :
  returns settles (call_slot slot payload).
Proof.
  unfold call_slot. use returns_slot_boundary.
  assert (∀ (m : M unit), keeps settles_workers m → keeps settles m) as Hweaken.
  { intros m Hm s. specialize (Hm s).
    destruct (m s); [by destruct Hm | by destruct Hm as [[] ?]]. }
  destruct slot.
  - apply Hweaken, returns_keeps, returns_log.
  - apply Hweaken, returns_keeps, returns_cleanup_worker.
  - apply Hweaken, keeps_thread_call.
  - apply returns_keeps, returns_modify. intros s. by split_and!.
  - apply Hweaken, returns_keeps, returns_cleanup_worker.
Qed.

Lemma returns_call_slots (slots : list Slot) (payload : option string) :
  returns settles (call_slots slots payload).
Proof.
  induction slots as [|slot slots IH]; simpl.
  - use returns_ret.
  - use returns_bind; [apply returns_call_slot|]. by intros _.
Qed.

Lemma call_slots_app (slots1 slots2 : list Slot) (payload : option string)
    (s : World) :
  call_slots (slots1 ++ slots2) payload s =
  (call_slots slots1 payload ≫= λ _, call_slots slots2 payload) s.
Proof.
  revert s. induction slots1 as [|slot slots1 IH]; intros s; simpl; [done|].
  unfold mbind, M_bind in *.
  destruct (call_slot slot payload s); [apply IH | done].
Qed.

(** [_setup_worker_thread] under a truthy key either gives up, or raises,
    or runs steps 1 to 5 in a state that the check of the existing entry has
    only settled. *)
Lemma setup_keyed_cases (worker : WorkerRef) (k : string)
    (force_interrupt : bool) (s : World) :
  k ≠ EmptyString →
  (∃ s', _setup_worker_thread worker (Some k) force_interrupt s = Ok None s') ∨
  (∃ e s', _setup_worker_thread worker (Some k) force_interrupt s = Err e s') ∨
  (∃ s0, settles_workers s s0 ∧
         _setup_worker_thread worker (Some k) force_interrupt s =
         setup_new_thread worker (Some k) s0).
Proof.
  intros Hne. unfold _setup_worker_thread.
  rewrite (bind_Ok _ _ _ _ _ (get_run s)).
  destruct (entry (Some k) s) as [[existing_thread w0]|].
  2:{ right. right. by exists s. }
  pose proof (keeps_thread_call existing_thread isRunning
                (λ _ th, (running th, th)) s) as Hrunning.
  fold (QThread_isRunning existing_thread) in Hrunning.
  destruct (QThread_isRunning existing_thread s) as [r s1|e s1] eqn:Hr.
  2:{ right. left. exists e, s1. by rewrite (bind_Err _ _ _ _ _ Hr). }
  rewrite (bind_Ok _ _ _ _ _ Hr).
  assert (∀ s2, settles_workers s s2 →
            ∃ s0, settles_workers s s0 ∧
              (_cleanup_worker None None (Some k) false ≫=
                 λ _, setup_new_thread worker (Some k)) s2 =
              setup_new_thread worker (Some k) s0) as Hcleanup.
  { intros s2 Hs2.
    destruct (returns_cleanup_worker None None (Some k) false s2)
      as ([] & s0 & Hc & Hs0).
    exists s0. split; [by etrans|]. by rewrite (bind_Ok _ _ _ _ _ Hc). }
  destruct r; [destruct force_interrupt|].
  - right. right. unfold log_warning.
    rewrite (bind_Ok _ _ _ _ _ (log_run _ _ _)).
    apply Hcleanup. etrans; [done|]. by apply (settles_record (EvLog _ _)).
  - left. unfold log_warning.
    rewrite (bind_Ok _ _ _ _ _ (log_run _ _ _)). by eexists.
  - right. right. by apply Hcleanup.
Qed.

(** What a successful [start_worker] under a truthy key has done to the
    worker and to the registry. *)
Lemma start_worker_keyed_success (worker : WorkerRef) (k : string)
    (force_interrupt : bool) (t : ThreadRef) (s s1 : World) :
  k ≠ EmptyString →
  start_worker worker (Some k) force_interrupt s = Ok (Some t) s1 →
  t = next_thread s ∧
  workers s1 = <[worker := wired t worker (Some k) (worker_at s worker)]> (workers s) ∧
  _active_workers s1 !! k = Some (t, worker) ∧
  emissions (trace s1) = emissions (trace s).
Proof.
  intros Hne Hstart.
  destruct (setup_keyed_cases worker k force_interrupt s Hne)
    as [(s' & Hsetup)|[(e & s' & Hsetup)|(s0 & Hs0 & Hsetup)]].
  - unfold start_worker in Hstart. by rewrite (bind_Ok _ _ _ _ _ Hsetup) in Hstart.
  - unfold start_worker in Hstart. by rewrite (bind_Err _ _ _ _ _ Hsetup) in Hstart.
  - rewrite setup_new_thread_keyed in Hsetup by done.
    erewrite start_worker_tail in Hstart;
      [|exact Hsetup|world; apply lookup_insert_eq|done].
    destruct Hs0 as [(Hreg & Hnext & Hemit & Hdom) Hworkers].
    assert (worker_at s0 worker = worker_at s worker) as Hw
      by (unfold worker_at; by rewrite Hworkers).
    injection Hstart as <- <-. world. rewrite Hw, Hworkers, Hnext.
    split_and!; try done.
    + apply lookup_insert_eq.
    + rewrite !emissions_app, Hemit.
      destruct (has_run _); simpl; by rewrite !app_nil_r.
Qed.

(** *** [consistent] holds of every state the service reaches *)

#[local] Instance keeps_consistent_preorder : PreOrder keeps_consistent.
Proof.
  split.
  - intros s Hs. exact Hs.
  - intros s1 s2 s3 H12 H23 Hs. apply H23, H12, Hs.
Qed.

Lemma settles_consistent (s s' : World) : settles s s' → keeps_consistent s s'.
Proof.
  intros (Hreg & Hnext & _ & Hdom) [Hkey Hfresh]. split.
  - by eapply lookup_weaken_None.
  - intros t th Hth. rewrite Hnext. simpl.
    destruct (Hdom t) as [[th0 Hth0] _]; [by eexists|]. by apply (Hfresh t th0).
Qed.

Lemma keeps_weaken (R R' : relation World) {A} (m : M A) :
  (∀ s s', R s s' → R' s s') → keeps R m → keeps R' m.
Proof.
  intros Hsub Hm s. specialize (Hm s). destruct (m s) as [a s'|e s'].
  - by apply Hsub.
  - destruct Hm. split; [by apply Hsub | done].
Qed.

Lemma settles_workers_consistent (s s' : World) :
  settles_workers s s' → keeps_consistent s s'.
Proof. intros [Hs _]. by apply settles_consistent. Qed.

Lemma consistent_update_worker (w : WorkerRef) (f : Worker → Worker) :
  returns keeps_consistent (update_worker w f).
Proof. apply returns_modify. by intros s Hs. Qed.

Lemma consistent_update_thread (t : ThreadRef) (f : QThread → QThread) :
  returns keeps_consistent (update_thread t f).
Proof.
  apply returns_modify. intros s.
  destruct (threads s !! t) as [th|] eqn:Hth; [|done].
  by eapply settles_workers_consistent, settles_set_thread.
Qed.

Lemma consistent_new_QThread : returns keeps_consistent new_QThread.
Proof.
  intros s. eexists _, _. split; [reflexivity|]. intros [Hkey Hfresh].
  split; [done|]. world. apply map_Forall_insert_2.
  - simpl. lia.
  - intros t th Hth. specialize (Hfresh t th Hth). simpl in *. lia.
Qed.

Lemma consistent_setup_new_thread (worker : WorkerRef)
    (worker_id : option string) :
  returns keeps_consistent (setup_new_thread worker worker_id).
Proof.
  unfold setup_new_thread, moveToThread, connect_error, connect_finished,
    connect_thread_finished.
  use returns_bind; [apply consistent_new_QThread|]. intros thread.
  use returns_bind; [apply consistent_update_worker|]. intros _.
  use returns_get_bind. intros s.
  use returns_bind.
  { destruct (has_worker_error_occurred _); [|use returns_ret].
    use returns_bind; [apply consistent_update_worker|]. intros _.
    apply consistent_update_worker. }
  intros _. use returns_bind.
  { destruct (has_worker_task_finished _); [|use returns_ret].
    use returns_bind; [apply consistent_update_worker|]. intros _.
    use returns_bind; [apply consistent_update_worker|]. intros _.
    use returns_bind; [apply consistent_update_thread|]. intros _.
    apply consistent_update_worker. }
  intros _. use returns_bind; [|intros _; use returns_ret].
  destruct worker_id as [k|]; [|use returns_ret]. unfold Py.truthy.
  case_decide as Hk; [use returns_ret|].
  use returns_bind.
  - apply returns_modify. intros s0 [Hkey Hfresh]. split; [|done].
    unfold set_active_workers. world. by rewrite lookup_insert_ne.
  - intros _. apply returns_modify. intros s0.
    by apply settles_workers_consistent, (settles_record (EvLog _ _)).
Qed.

Lemma consistent_cleanup_worker (thread : option ThreadRef)
    (worker : option WorkerRef) (worker_id : option string) (force : bool) :
  returns keeps_consistent (_cleanup_worker thread worker worker_id force).
Proof.
  intros s. destruct (returns_cleanup_worker thread worker worker_id force s)
    as (a & s' & Hrun & Hs').
  exists a, s'. split; [done | by apply settles_workers_consistent].
Qed.

Lemma consistent_thread_call {A} (t : ThreadRef) (c : ThreadCall)
    (method : World → QThread → A * QThread) :
  keeps keeps_consistent (thread_call t c method).
Proof.
  eapply keeps_weaken; [apply settles_workers_consistent|].
  apply keeps_thread_call.
Qed.

Lemma consistent_log (message : LogMsg) (level : LogLevel) :
  returns keeps_consistent (log message level).
Proof.
  intros s. eexists _, _. split; [apply log_run|].
  by apply settles_workers_consistent, (settles_record (EvLog _ _)).
Qed.

(** Every public method of the service, every slot it connects and
    [BaseWorker.run] keep the state consistent. *)
Lemma consistent_start_worker (worker : WorkerRef) (worker_id : option string)
    (force_interrupt : bool) :
  keeps keeps_consistent (start_worker worker worker_id force_interrupt).
Proof.
  unfold start_worker. use keeps_bind.
  - unfold _setup_worker_thread. use keeps_get_bind. intros s.
    destruct (entry worker_id s) as [[existing_thread w0]|].
    2:{ apply returns_keeps, consistent_setup_new_thread. }
    use keeps_bind; [apply consistent_thread_call|]. intros [].
    + destruct force_interrupt.
      * use keeps_bind; [apply returns_keeps, consistent_log|]. intros _.
        use keeps_bind; [apply returns_keeps, consistent_cleanup_worker|].
        intros _. apply returns_keeps, consistent_setup_new_thread.
      * use keeps_bind; [apply returns_keeps, consistent_log|]. intros _.
        use keeps_ret.
    + use keeps_bind; [apply returns_keeps, consistent_cleanup_worker|].
      intros _. apply returns_keeps, consistent_setup_new_thread.
  - intros [[thread worker']|]; [|use keeps_ret].
    use keeps_get_bind. intros s. use keeps_bind.
    { destruct (has_run _).
      - apply returns_keeps, consistent_update_thread.
      - apply returns_keeps, consistent_log. }
    intros _. use keeps_bind; [apply consistent_thread_call|]. intros _.
    use keeps_ret.
Qed.

Lemma consistent_stop_worker (worker_id : string) :
  returns keeps_consistent (stop_worker worker_id).
Proof. apply consistent_cleanup_worker. Qed.

Lemma consistent_force_stop_worker (worker_id : string) :
  returns keeps_consistent (force_stop_worker worker_id).
Proof. apply consistent_cleanup_worker. Qed.

Lemma consistent_emit (worker : WorkerRef) (sig : WorkerSignal)
    (payload : option string) :
  returns keeps_consistent (emit worker sig payload).
Proof.
  unfold emit. use returns_bind.
  - apply returns_modify. by intros s Hs.
  - intros _. use returns_get_bind. intros s s0.
    destruct (returns_call_slots
                match sig with
                | worker_task_finished => finished_slots (worker_at s worker)
                | worker_error_occurred => error_slots (worker_at s worker)
                end payload s0) as (a & s' & Hrun & Hs').
    exists a, s'. split; [done | by apply settles_consistent].
Qed.

Lemma consistent_run (self : WorkerRef) (s : World) :
  consistent s → consistent (after (run self) s).
Proof.
  intros Hs. unfold after, run. rewrite (bind_Ok _ _ _ _ _ (get_run s)).
  destruct (process (worker_at s self)) as [|e].
  - destruct (consistent_emit self worker_task_finished None s)
      as (a & s' & -> & Hs'). by apply Hs'.
  - destruct (Py.isinstance_Exception e); [|done].
    destruct (consistent_emit self worker_error_occurred (Some (Py.exc_str e)) s)
      as (a & s' & -> & Hs'). by apply Hs'.
Qed.

Lemma consistent_BaseService_init (workers : gmap WorkerRef Worker)
    (confirms : ThreadRef → bool) :
  consistent (BaseService_init workers confirms).
Proof. split; [done | apply map_Forall_empty]. Qed.

(** C3: when the entry of key [k] holds a thread that reports running,
    [start_worker(worker, k, force_interrupt=False)] returns [None]; the
    registry, every thread object (so the existing thread is neither
    interrupted, quit nor terminated), every worker object (so nothing is
    wired to the new worker) and the thread allocator are as before, and all
    that happened is the [isRunning] query and one warning in the log: no
    thread was created or started. *)
Theorem C3_start_rejected_while_running (s : World) (worker : WorkerRef)
    (k : string) (t : ThreadRef) (w0 : WorkerRef) :
  consistent s →
  _active_workers s !! k = Some (t, w0) →
  reports_running s t →
  start_worker worker (Some k) false s =
  Ok None
    (mkWorld (_active_workers s) (threads s) (workers s) (next_thread s)
       (confirms s)
       (trace s ++ [EvCall t isRunning;
                    EvLog WARNING (MsgAlreadyRunning (Some k))])).
Proof.
  intros Hs Hk (th & Hth & Hlive & Hrun).
  pose proof (consistent_key s k _ Hs Hk) as Hne.
  unfold start_worker, _setup_worker_thread. unfold_monad.
  rewrite entry_truthy, Hk by done.
  unfold QThread_isRunning. rewrite (thread_call_live _ _ _ _ th) by done.
  simpl. rewrite Hrun. unfold record, set_thread. simpl.
  rewrite insert_id by done. by rewrite <- app_assoc.
Qed.

Example start_rejected_scan :
  start_worker 1 (Some "scan") false Scenario.scan_started =
  Ok None
    (mkWorld (_active_workers Scenario.scan_started)
       (threads Scenario.scan_started) (workers Scenario.scan_started) 1
       (λ _, false)
       [EvLog INFO (MsgSetupDone (Some "scan")); EvCall 0 start;
        EvCall 0 isRunning; EvLog WARNING (MsgAlreadyRunning (Some "scan"))]).
Proof. vm_compute. reflexivity. Qed.

Lemma C3_witness :
  start_worker 1 (Some "scan") false Scenario.scan_started =
  Ok None
    (mkWorld (_active_workers Scenario.scan_started)
       (threads Scenario.scan_started) (workers Scenario.scan_started)
       (next_thread Scenario.scan_started) (confirms Scenario.scan_started)
       (trace Scenario.scan_started ++
          [EvCall 0 isRunning; EvLog WARNING (MsgAlreadyRunning (Some "scan"))])).
Proof.
  apply (C3_start_rejected_while_running Scenario.scan_started 1 "scan" 0 0).
  - split; [reflexivity | compute_done].
  - reflexivity.
  - eexists. split; [reflexivity|]. split; reflexivity.
Defined.

(** C4: when the entry of key [k] holds a live thread that reports running,
    [start_worker(worker, k, force_interrupt=True)] stops it on the graceful
    path only: the calls made on the existing thread are [isRunning] (twice),
    [requestInterruption], [quit] and [wait(1000)], in this order; no
    [terminate] is called on any thread, whether or not the thread confirms
    within the wait ([confirms s t] is arbitrary); the new worker is then
    registered under [k] with a new thread, which is started. *)
Theorem C4_force_interrupt_is_graceful (s : World) (worker : WorkerRef)
    (k : string) (t : ThreadRef) (w0 : WorkerRef) (th : QThread) :
  consistent s →
  _active_workers s !! k = Some (t, w0) →
  threads s !! t = Some th → deleted th = false → running th = true →
  ∃ s' tr,
    start_worker worker (Some k) true s = Ok (Some (next_thread s)) s' ∧
    trace s' = trace s ++ tr ∧
    calls_on t tr =
      [isRunning; isRunning; requestInterruption; quit; wait (Some 1000%N)] ∧
    (∀ t', EvCall t' terminate ∉ tr) ∧
    threads s' !! t = Some (asked_to_stop (confirms s t) th) ∧
    _active_workers s' !! k = Some (next_thread s, worker).
Proof.
  intros Hs Hk Hth Hlive Hrun.
  pose proof (consistent_key s k _ Hs Hk) as Hne.
  assert (t ≠ next_thread s) as Hfresh.
  { destruct Hs as [_ Hs]. specialize (Hs t th Hth). simpl in Hs. lia. }
  eexists _, _. split.
  { eapply start_worker_tail.
    - by eapply setup_force_interrupt.
    - world. apply lookup_insert_eq.
    - done. }
  world. split; [by rewrite <- !app_assoc|].
  split_and!.
  - unfold graceful_stop_events, calls_on.
    destruct (confirms s t), (has_run _); simpl;
      rewrite ?decide_True by done; rewrite decide_False by done; done.
  - intros t'. unfold graceful_stop_events.
    destruct (confirms s t), (has_run _); simpl; intros Hin;
      repeat (apply elem_of_cons in Hin as [Hin|Hin]; [congruence|]);
      by apply elem_of_nil in Hin.
  - rewrite lookup_insert_ne by done. rewrite lookup_insert_ne by done.
    apply lookup_insert_eq.
  - apply lookup_insert_eq.
Qed.

Lemma C4_witness :
  ∃ s' tr,
    start_worker 1 (Some "scan") true Scenario.scan_started = Ok (Some 1) s' ∧
    trace s' = trace Scenario.scan_started ++ tr ∧
    calls_on 0 tr =
      [isRunning; isRunning; requestInterruption; quit; wait (Some 1000%N)] ∧
    (∀ t', EvCall t' terminate ∉ tr) ∧
    _active_workers s' !! "scan" = Some (1, 1).
Proof.
  destruct (C4_force_interrupt_is_graceful Scenario.scan_started 1 "scan" 0 0
              (mkThread true false false false false [0] 1))
    as (s' & tr & Hstart & Htrace & Hcalls & Hterm & _ & Hreg).
  - split; [reflexivity | compute_done].
  - reflexivity.
  - reflexivity.
  - reflexivity.
  - reflexivity.
  - exists s', tr. split_and!; assumption.
Defined.

(** *** A cleanup that arrives after its worker was replaced *)

(** The slot connected to the finished signal names its thread: when the
    entry of the key holds another thread by now, it does nothing but warn. *)
Lemma late_finished_cleanup_skips (k : string) (t stored_thread : ThreadRef)
    (w stored_worker : WorkerRef) (payload : option string) (s : World) :
  k ≠ EmptyString →
  _active_workers s !! k = Some (stored_thread, stored_worker) →
  t ≠ stored_thread →
  call_slot (SlotCleanup t w (Some k)) payload s =
  Ok tt
    (mkWorld (_active_workers s) (threads s) (workers s) (next_thread s)
       (confirms s) (trace s ++ [EvLog WARNING (MsgThreadChanged (Some k))])).
Proof.
  intros Hne Hk Hdiff. unfold call_slot, slot_boundary.
  by rewrite (cleanup_stale k t stored_thread (Some w) stored_worker false s).
Qed.

(** The slot connected to the failed signal names only the key: it stops
    and removes whatever the key holds by now. *)
Lemma late_failed_cleanup_removes (k : string) (stored_thread : ThreadRef)
    (stored_worker : WorkerRef) (payload : option string) (s : World)
    (th : QThread) :
  k ≠ EmptyString →
  _active_workers s !! k = Some (stored_thread, stored_worker) →
  threads s !! stored_thread = Some th → deleted th = false → running th = true →
  call_slot (SlotCleanupById (Some k)) payload s =
  Ok tt
    (mkWorld (delete k (_active_workers s))
       (<[stored_thread := asked_to_stop (confirms s stored_thread) th]> (threads s))
       (workers s) (next_thread s) (confirms s)
       (trace s ++ graceful_stop_events stored_thread (Some k)
                     (confirms s stored_thread) ++
          [EvLog INFO (MsgRemoved (Some k))])).
Proof.
  intros Hne Hk Hth Hlive Hrun. unfold call_slot, slot_boundary.
  by rewrite (cleanup_by_id_running k stored_thread stored_worker s th).
Qed.

(** C1 at a failing input: worker [0] is started under ["scan"], then
    worker [1] is started under ["scan"] with [force_interrupt]; the entry
    now holds thread [1] and worker [1].  When the finished signal of worker
    [0] arrives late, the entry stays and thread [1] is not touched.  When
    the failed signal of worker [0] arrives late, the cleanup it triggers
    finds no mismatch: it asks thread [1] to stop and removes the entry of
    the replacement. *)
Theorem C1_late_failed_signal_removes_replacement :
  _active_workers Scenario.scan_replaced !! "scan" = Some (1, 1) ∧
  (let s' := after (emit 0 worker_task_finished None) Scenario.scan_replaced in
   _active_workers s' !! "scan" = Some (1, 1) ∧
   threads s' !! 1 = threads Scenario.scan_replaced !! 1) ∧
  (let s' := after (emit 0 worker_error_occurred (Some "boom"))
               Scenario.scan_replaced in
   _active_workers s' !! "scan" = None ∧
   calls_on 1 (drop (length (trace Scenario.scan_replaced)) (trace s')) =
     [isRunning; requestInterruption; quit; wait (Some 1000%N)] ∧
   (interruption_requested <$> threads s' !! 1) = Some true).
Proof. cbv zeta. split_and!; vm_compute; reflexivity. Qed.

(** *** A worker whose body raises *)

(** C5 as the code has it: a worker with the failed signal, started under
    a key [k], whose [process] raises an [Exception] [e]: [run] returns (the
    exception goes no further), the failed signal is emitted exactly once and
    carries [str(e)] (which may be empty), the finished signal is not
    emitted, and afterwards no entry is registered under [k]. *)
Theorem C5_failed_worker (s s1 : World) (worker : WorkerRef)
    (k : string) (force_interrupt : bool) (t : ThreadRef) (e : Py.PyExc) :
  k ≠ EmptyString →
  has_worker_error_occurred (worker_at s worker) = true →
  process (worker_at s worker) = ProcessRaises e →
  Py.isinstance_Exception e = true →
  start_worker worker (Some k) force_interrupt s = Ok (Some t) s1 →
  ∃ s2,
    run worker s1 = Ok tt s2 ∧
    emissions (trace s2) =
      emissions (trace s1) ++ [(worker, worker_error_occurred, Some (Py.exc_str e))] ∧
    _active_workers s2 !! k = None.
Proof.
  intros Hne Hsig Hproc Hexc Hstart.
  destruct (start_worker_keyed_success _ _ _ _ _ _ Hne Hstart)
    as (-> & Hworkers & _ & _).
  assert (worker_at s1 worker =
          wired (next_thread s) worker (Some k) (worker_at s worker)) as Hw.
  { unfold worker_at at 1. by rewrite Hworkers, lookup_insert_eq. }
  unfold run. rewrite (bind_Ok _ _ _ _ _ (get_run s1)).
  rewrite Hw. cbn [process wired]. rewrite Hproc, Hexc.
  unfold emit. rewrite (bind_Ok _ _ _ _ _ (modify_run _ _)).
  rewrite (bind_Ok _ _ _ _ _ (get_run _)).
  change (worker_at (record _ s1) worker) with (worker_at s1 worker).
  rewrite Hw. cbn [error_slots wired]. rewrite Hsig.
  rewrite call_slots_app.
  destruct (returns_call_slots (error_slots (worker_at s worker))
              (Some (Py.exc_str e))
              (record (EvEmit worker worker_error_occurred
                         (Some (Py.exc_str e))) s1))
    as ([] & s2 & Hold & (_ & _ & Hemit2 & _)).
  rewrite (bind_Ok _ _ _ _ _ Hold).
  cbn [call_slots].
  destruct (returns_call_slot (SlotLogError (Some k)) (Some (Py.exc_str e)) s2)
    as ([] & s3 & Hlog & (_ & _ & Hemit3 & _)).
  rewrite (bind_Ok _ _ _ _ _ Hlog).
  destruct (cleanup_by_id_removes k false s3 Hne)
    as (s4 & Hclean & Hgone & [(_ & _ & Hemit4 & _) _]).
  assert (call_slot (SlotCleanupById (Some k)) (Some (Py.exc_str e)) s3 =
          Ok tt s4) as Hslot.
  { unfold call_slot, slot_boundary. by rewrite Hclean. }
  rewrite (bind_Ok _ _ _ _ _ Hslot).
  exists s4. split; [done|]. split; [|done].
  rewrite Hemit4, Hemit3, Hemit2. unfold record. world.
  by rewrite emissions_app.
Qed.

(** The body of worker [0] raises an exception whose text is empty: the
    failed signal it emits carries the empty string. *)
Lemma C5_counterexample :
  start_worker 0 (Some "scan") false Scenario.two_workers =
    Ok (Some 0) Scenario.scan_started ∧
  process (worker_at Scenario.two_workers 0) =
    ProcessRaises (Py.mkExc Py.OtherException EmptyString) ∧
  emissions (trace (after (run 0) Scenario.scan_started)) =
    [(0, worker_error_occurred, Some EmptyString)].
Proof. split_and!; vm_compute; reflexivity. Qed.

Lemma C5_witness :
  ∃ s2,
    run 0 Scenario.scan_started = Ok tt s2 ∧
    emissions (trace s2) =
      emissions (trace Scenario.scan_started) ++
        [(0, worker_error_occurred, Some (Py.exc_str Scenario.silent))] ∧
    _active_workers s2 !! "scan" = None.
Proof.
  apply (C5_failed_worker Scenario.two_workers Scenario.scan_started 0 "scan"
           false 0 Scenario.silent).
  - done.
  - reflexivity.
  - reflexivity.
  - reflexivity.
  - vm_compute. reflexivity.
Defined.

End ServiceFacts.

(** ** The registry over time *)
Module LifecycleFacts.
Import Service ServiceFacts Lifecycle.

#[local] Existing Instance settles_preorder.
#[local] Existing Instance settles_workers_preorder.
#[local] Existing Instance keeps_consistent_preorder.

(** *** Combinators *)

Lemma returns_weaken (R R' : relation World) {A} (m : M A) :
  (∀ s s', R s s' → R' s s') → returns R m → returns R' m.
Proof.
  intros Hsub Hm s. destruct (Hm s) as (a & s' & Hrun & HR).
  exists a, s'. split; [done | by apply Hsub].
Qed.

Lemma after_keeps (R : relation World) {A} (m : M A) (s : World) :
  keeps R m → R s (after m s).
Proof.
  intros Hm. unfold after. specialize (Hm s).
  destruct (m s); [done | by destruct Hm].
Qed.

Lemma after_run (R : relation World) `{!PreOrder R} (self : WorkerRef) (s : World) :
  (∀ sig payload, returns R (emit self sig payload)) → R s (after (run self) s).
Proof.
  intros Hemit. unfold after, run. rewrite (bind_Ok _ _ _ _ _ (get_run s)).
  destruct (process (worker_at s self)) as [|e].
  - by destruct (Hemit worker_task_finished None s) as (a & s' & -> & Hs').
  - destruct (Py.isinstance_Exception e); [|done].
    by destruct (Hemit worker_error_occurred (Some (Py.exc_str e)) s)
      as (a & s' & -> & Hs').
Qed.

(** [stop_thread] keeps whatever logging and the thread calls it makes
    keep. *)
Section StopThread.
Context (R : relation World) `{!PreOrder R}.
Context (allowed : ThreadCall → Prop).
Hypothesis R_log : ∀ message level, returns R (log message level).
Hypothesis R_call : ∀ {A} t c (method : World → QThread → A * QThread),
  allowed c → keeps R (thread_call t c method).

Lemma returns_stop_thread_by (target_thread : option ThreadRef)
    (worker_id : option string) (force : bool) :
  allowed isRunning →
  (if force then allowed terminate ∧ allowed (wait None)
   else allowed requestInterruption ∧ allowed quit ∧ allowed (wait (Some 1000%N))) →
  returns R (stop_thread target_thread worker_id force).
Proof.
  intros HisRunning Hforce.
  unfold stop_thread. use returns_try; [|apply R_log].
  destruct target_thread as [t|]; [|use keeps_ret].
  use keeps_bind; [by apply R_call|]. intros [].
  2: use keeps_ret.
  use keeps_bind; [apply returns_keeps, R_log|]. intros _.
  destruct force.
  - destruct Hforce as [Hterminate Hwait].
    use keeps_bind; [apply returns_keeps, R_log|]. intros _.
    use keeps_bind; [by apply R_call|]. intros _.
    use keeps_bind; [by apply R_call|]. intros _.
    use keeps_ret.
  - destruct Hforce as (Hinterrupt & Hquit & Hwait).
    use keeps_bind; [by apply R_call|]. intros _.
    use keeps_bind; [by apply R_call|]. intros _.
    use keeps_bind; [by apply R_call|]. intros [].
    + use keeps_ret.
    + apply returns_keeps, R_log.
Qed.
End StopThread.

(** [start_worker] keeps whatever its steps keep. *)
Section StartKeeps.
Context (R : relation World) `{!PreOrder R}.
Hypothesis R_log : ∀ message level, returns R (log message level).
Hypothesis R_call : ∀ {A} t c (method : World → QThread → A * QThread),
  c ≠ terminate → keeps R (thread_call t c method).
Hypothesis R_cleanup : ∀ worker_id,
  returns R (_cleanup_worker None None worker_id false).
Hypothesis R_setup : ∀ worker worker_id,
  returns R (setup_new_thread worker worker_id).
Hypothesis R_update_thread : ∀ t f, returns R (update_thread t f).

Lemma keeps_start_worker_by (worker : WorkerRef) (worker_id : option string)
    (force_interrupt : bool) :
  keeps R (start_worker worker worker_id force_interrupt).
Proof.
  unfold start_worker. use keeps_bind.
  - unfold _setup_worker_thread. use keeps_get_bind. intros s.
    destruct (entry worker_id s) as [[existing_thread w0]|].
    2:{ apply returns_keeps, R_setup. }
    use keeps_bind; [by apply R_call|]. intros [].
    + destruct force_interrupt.
      * use keeps_bind; [apply returns_keeps, R_log|]. intros _.
        use keeps_bind; [apply returns_keeps, R_cleanup|].
        intros _. apply returns_keeps, R_setup.
      * use keeps_bind; [apply returns_keeps, R_log|]. intros _.
        use keeps_ret.
    + use keeps_bind; [apply returns_keeps, R_cleanup|].
      intros _. apply returns_keeps, R_setup.
  - intros [[thread worker']|]; [|use keeps_ret].
    use keeps_get_bind. intros s. use keeps_bind.
    { destruct (has_run _).
      - apply returns_keeps, R_update_thread.
      - apply returns_keeps, R_log. }
    intros _. use keeps_bind; [by apply R_call|]. intros _.
    use keeps_ret.
Qed.
End StartKeeps.

(** *** Stopping by key *)

Lemma entry_absent (worker_id : option string) (s : World) :
  _active_workers s !! default EmptyString worker_id = None →
  entry worker_id s = None.
Proof. intros Hk. unfold entry. by destruct (Py.truthy worker_id). Qed.

Lemma entry_falsy (worker_id : option string) (s : World) :
  Py.truthy worker_id = false → entry worker_id s = None.
Proof. intros Hk. unfold entry. by rewrite Hk. Qed.

Lemma truthy_key (k : string) : Py.truthy (Some k) = true → k ≠ EmptyString.
Proof. unfold Py.truthy. by case_decide. Qed.

Lemma stop_thread_none (worker_id : option string) (force : bool) (s : World) :
  stop_thread None worker_id force s = Ok tt s.
Proof. reflexivity. Qed.

(** X1: [stop_worker] and [force_stop_worker] on a key that is not
    registered return and change nothing: no thread is touched and nothing
    is logged. *)
Theorem X1_stop_missing_key_changes_nothing (k : string) (s : World) :
  _active_workers s !! k = None →
  stop_worker k s = Ok tt s ∧ force_stop_worker k s = Ok tt s.
Proof.
  intros Hk.
  assert (∀ force, _cleanup_worker None None (Some k) force s = Ok tt s) as Hgo.
  { intros force. unfold _cleanup_worker.
    rewrite (bind_Ok _ _ _ _ _ (get_run s)).
    rewrite (entry_absent (Some k)) by done.
    rewrite (bind_Ok _ _ _ _ _ (stop_thread_none _ _ _)).
    by rewrite remove_entry_absent by by apply (entry_absent (Some k)). }
  split; apply Hgo.
Qed.

Lemma X1_witness :
  stop_worker "idle" Scenario.scan_started = Ok tt Scenario.scan_started ∧
  force_stop_worker "idle" Scenario.scan_started = Ok tt Scenario.scan_started.
Proof.
  apply (X1_stop_missing_key_changes_nothing "idle" Scenario.scan_started).
  reflexivity.
Defined.

Lemma stop_thread_forced (t : ThreadRef) (worker_id : option string)
    (s : World) (th : QThread) :
  threads s !! t = Some th → deleted th = false → running th = true →
  stop_thread (Some t) worker_id true s =
  Ok tt
    (mkWorld (_active_workers s) (<[t := terminated th]> (threads s))
       (workers s) (next_thread s) (confirms s)
       (trace s ++
          [EvCall t isRunning; EvLog INFO (MsgStopRequest worker_id);
           EvLog WARNING (MsgEmergencyStop worker_id);
           EvCall t terminate; EvCall t (wait None)])).
Proof.
  intros Hth Hlive Hrun.
  unfold stop_thread, try_except_RuntimeError.
  unfold QThread_isRunning, QThread_terminate, QThread_wait, log_info, log_warning.
  erewrite bind_Ok by (by apply thread_call_run). world. cbn [fst snd].
  rewrite Hrun.
  step_with ltac:(apply log_run).
  step_with ltac:(apply log_run).
  step_with ltac:(apply thread_call_run; world; [apply lookup_insert_eq | done]).
  cbn [fst snd]. rewrite insert_insert_eq.
  step_with ltac:(apply thread_call_run; world; [apply lookup_insert_eq | done]).
  cbn [fst snd running terminate_called_set]. rewrite Hrun, insert_insert_eq.
  unfold mret, M_ret. rewrite <- !app_assoc. reflexivity.
Qed.

(** X2: [stop_worker(k)] on an entry whose thread reports running asks the
    thread to stop on the graceful path ([requestInterruption], [quit],
    [wait(1000)], no [terminate]) and removes the entry in any case: when
    the thread does not confirm within the wait, a warning is logged, the
    thread still runs, and the registry no longer knows it. *)
Theorem X2_stop_worker_running_is_graceful (k : string) (t : ThreadRef)
    (w0 : WorkerRef) (s : World) (th : QThread) :
  consistent s →
  _active_workers s !! k = Some (t, w0) →
  threads s !! t = Some th → deleted th = false → running th = true →
  stop_worker k s =
  Ok tt
    (mkWorld (delete k (_active_workers s))
       (<[t := mkThread (negb (confirms s t)) false true true
                 (terminate_called th) (started th) (finished_deleteLater th)]>
          (threads s))
       (workers s) (next_thread s) (confirms s)
       (trace s ++
          [EvCall t isRunning; EvLog INFO (MsgStopRequest (Some k));
           EvCall t requestInterruption; EvCall t quit;
           EvCall t (wait (Some 1000%N))] ++
          (if confirms s t then []
           else [EvLog WARNING (MsgNotResponding (Some k))]) ++
          [EvLog INFO (MsgRemoved (Some k))])).
Proof.
  intros Hs Hk Hth Hlive Hrun.
  pose proof (consistent_key s k _ Hs Hk) as Hne.
  unfold stop_worker.
  rewrite (cleanup_by_id_running k t w0 s th) by done.
  unfold asked_to_stop, graceful_stop_events. rewrite Hlive, Hrun.
  rewrite <- !app_assoc. by destruct (confirms s t).
Qed.

(** The thread of ["scan"] does not confirm: it is still running, and the
    entry is gone. *)
Lemma X2_witness :
  ∃ s', stop_worker "scan" Scenario.scan_started = Ok tt s' ∧
        _active_workers s' !! "scan" = None ∧
        (running <$> threads s' !! 0) = Some true.
Proof.
  eexists. split.
  - apply (X2_stop_worker_running_is_graceful "scan" 0 0 Scenario.scan_started
             scan_thread).
    + split; [reflexivity | compute_done].
    + reflexivity.
    + reflexivity.
    + reflexivity.
    + reflexivity.
  - split; reflexivity.
Defined.

(** X3: [force_stop_worker(k)] on an entry whose thread reports running
    calls [terminate] and then [wait()] without a timeout on it, never
    [requestInterruption] or [quit], and removes the entry; the thread no
    longer runs. *)
Theorem X3_force_stop_worker_running_terminates (k : string) (t : ThreadRef)
    (w0 : WorkerRef) (s : World) (th : QThread) :
  consistent s →
  _active_workers s !! k = Some (t, w0) →
  threads s !! t = Some th → deleted th = false → running th = true →
  force_stop_worker k s =
  Ok tt
    (mkWorld (delete k (_active_workers s))
       (<[t := terminated th]> (threads s))
       (workers s) (next_thread s) (confirms s)
       (trace s ++
          [EvCall t isRunning; EvLog INFO (MsgStopRequest (Some k));
           EvLog WARNING (MsgEmergencyStop (Some k));
           EvCall t terminate; EvCall t (wait None);
           EvLog INFO (MsgRemoved (Some k))])).
Proof.
  intros Hs Hk Hth Hlive Hrun.
  pose proof (consistent_key s k _ Hs Hk) as Hne.
  unfold force_stop_worker, _cleanup_worker.
  rewrite (bind_Ok _ _ _ _ _ (get_run s)).
  rewrite entry_truthy, Hk by done.
  rewrite decide_False by (intros Hneq; by apply Hneq).
  erewrite bind_Ok by (by apply stop_thread_forced).
  erewrite remove_entry_present by (done || (world; done)).
  world. by rewrite <- !app_assoc.
Qed.

Lemma X3_witness :
  ∃ s', force_stop_worker "scan" Scenario.scan_started = Ok tt s' ∧
        _active_workers s' !! "scan" = None ∧
        threads s' !! 0 = Some (terminated scan_thread).
Proof.
  eexists. split.
  - apply (X3_force_stop_worker_running_terminates "scan" 0 0
             Scenario.scan_started scan_thread).
    + split; [reflexivity | compute_done].
    + reflexivity.
    + reflexivity.
    + reflexivity.
    + reflexivity.
  - split; reflexivity.
Defined.

Lemma thread_call_gone {A} (t : ThreadRef) (c : ThreadCall)
    (method : World → QThread → A * QThread) (s : World) :
  gone s t →
  thread_call t c method s =
  Err (Py.mkExc Py.RuntimeError "Internal C++ object already deleted.")
    (record (EvCall t c) s).
Proof.
  unfold gone, thread_call.
  change (threads (record (EvCall t c) s)) with (threads s).
  destruct (threads s !! t) as [th|]; [|done]. simpl. by intros ->.
Qed.

(** X4: [stop_worker(k)] and [force_stop_worker(k)] on an entry whose thread
    object is already deleted: the [RuntimeError] of [isRunning] is caught,
    one line is logged in its place, no other method of the thread is
    called, and the entry is removed. *)
Theorem X4_stop_worker_deleted_thread (k : string) (t : ThreadRef)
    (w0 : WorkerRef) (force : bool) (s : World) :
  consistent s →
  _active_workers s !! k = Some (t, w0) →
  gone s t →
  (if force then force_stop_worker k else stop_worker k) s =
  Ok tt
    (mkWorld (delete k (_active_workers s)) (threads s) (workers s)
       (next_thread s) (confirms s)
       (trace s ++
          [EvCall t isRunning; EvLog INFO (MsgAlreadyDeleted (Some k));
           EvLog INFO (MsgRemoved (Some k))])).
Proof.
  intros Hs Hk Hgone.
  pose proof (consistent_key s k _ Hs Hk) as Hne.
  assert ((if force then force_stop_worker k else stop_worker k) =
          _cleanup_worker None None (Some k) force) as ->
    by by destruct force.
  unfold _cleanup_worker.
  rewrite (bind_Ok _ _ _ _ _ (get_run s)).
  rewrite entry_truthy, Hk by done.
  rewrite decide_False by (intros Hneq; by apply Hneq).
  assert (stop_thread (Some t) (Some k) force s =
          Ok tt (mkWorld (_active_workers s) (threads s) (workers s)
                   (next_thread s) (confirms s)
                   (trace s ++ [EvCall t isRunning;
                                EvLog INFO (MsgAlreadyDeleted (Some k))])))
    as Hstop.
  { unfold stop_thread, try_except_RuntimeError, QThread_isRunning.
    erewrite bind_Err by (by apply thread_call_gone).
    cbn [Py.isinstance_RuntimeError Py.exc_cls]. unfold log_info.
    rewrite log_run. unfold record. world. by rewrite <- app_assoc. }
  rewrite (bind_Ok _ _ _ _ _ Hstop).
  erewrite remove_entry_present by (done || (world; done)).
  world. by rewrite <- !app_assoc.
Qed.

Lemma X4_witness :
  ∃ s', force_stop_worker "scan" scan_thread_deleted = Ok tt s' ∧
        _active_workers s' !! "scan" = None ∧
        calls_on 0 (drop (length (trace scan_thread_deleted)) (trace s')) =
          [isRunning].
Proof.
  eexists. split.
  - apply (X4_stop_worker_deleted_thread "scan" 0 0 true scan_thread_deleted).
    + split; [reflexivity | compute_done].
    + reflexivity.
    + reflexivity.
  - split; reflexivity.
Defined.

(** *** Starting *)

(** X5: [start_worker(worker, k)] on an entry whose thread object is
    already deleted does not return: the [RuntimeError] of the unguarded
    [existing_thread.isRunning()] leaves [start_worker], with either value
    of [force_interrupt]; nothing was changed, the stale entry stays. *)
Theorem X5_start_worker_deleted_thread_raises (worker : WorkerRef) (k : string)
    (t : ThreadRef) (w0 : WorkerRef) (force_interrupt : bool) (s : World) :
  consistent s →
  _active_workers s !! k = Some (t, w0) →
  gone s t →
  start_worker worker (Some k) force_interrupt s =
  Err (Py.mkExc Py.RuntimeError "Internal C++ object already deleted.")
    (mkWorld (_active_workers s) (threads s) (workers s) (next_thread s)
       (confirms s) (trace s ++ [EvCall t isRunning])).
Proof.
  intros Hs Hk Hgone.
  pose proof (consistent_key s k _ Hs Hk) as Hne.
  unfold start_worker, _setup_worker_thread.
  erewrite bind_Err; [done|].
  rewrite (bind_Ok _ _ _ _ _ (get_run s)).
  rewrite entry_truthy, Hk by done.
  unfold QThread_isRunning.
  erewrite bind_Err by (by apply thread_call_gone). done.
Qed.

Lemma X5_witness :
  ∃ e s', start_worker 1 (Some "scan") true scan_thread_deleted = Err e s' ∧
          Py.isinstance_RuntimeError e = true ∧
          _active_workers s' !! "scan" = Some (0, 0).
Proof.
  eexists _, _. split.
  - apply (X5_start_worker_deleted_thread_raises 1 "scan" 0 0 true
             scan_thread_deleted).
    + split; [reflexivity | compute_done].
    + reflexivity.
    + reflexivity.
  - split; reflexivity.
Defined.

(** Steps 1 to 5 of [_setup_worker_thread] under a falsy key. *)
Lemma setup_new_thread_anonymous (worker : WorkerRef) (worker_id : option string)
    (s : World) :
  Py.truthy worker_id = false →
  setup_new_thread worker worker_id s =
  Ok (Some (next_thread s, worker))
    (mkWorld (_active_workers s)
       (<[next_thread s :=
            mkThread false false false false false []
              (if has_worker_task_finished (worker_at s worker) then 1 else 0)]>
          (threads s))
       (<[worker := wired (next_thread s) worker worker_id (worker_at s worker)]>
          (workers s))
       (S (next_thread s)) (confirms s) (trace s)).
Proof.
  intros Hk. unfold setup_new_thread.
  unfold new_QThread at 1. unfold mbind at 1, M_bind at 1.
  unfold moveToThread, connect_error, connect_finished, connect_thread_finished.
  step_worker.
  change (worker_at (mkWorld _ _ (workers s) _ _ _) worker)
    with (worker_at s worker).
  erewrite bind_Ok by apply get_run. rewrite worker_at_insert.
  rewrite Hk.
  unfold wired.
  destruct (worker_at s worker) as [he hf hr es fs th dl pr].
  cbn [has_worker_error_occurred has_worker_task_finished Worker_moved].
  destruct he, hf; rewrite ?bind_assoc, ?ret_bind.
  - do 4 step_worker.
    step_with ltac:(apply update_thread_run; world; apply lookup_insert_eq).
    rewrite insert_insert_eq. step_worker.
    unfold mret, M_ret. unfold Worker_finished_connected, Worker_error_connected.
    simpl. by rewrite <- !app_assoc.
  - do 2 step_worker. rewrite ?ret_bind.
    unfold mret, M_ret. unfold Worker_finished_connected, Worker_error_connected.
    simpl. by rewrite <- !app_assoc, app_nil_r.
  - do 2 step_worker.
    step_with ltac:(apply update_thread_run; world; apply lookup_insert_eq).
    rewrite insert_insert_eq. step_worker.
    unfold mret, M_ret. unfold Worker_finished_connected, Worker_error_connected.
    simpl. by rewrite <- !app_assoc, app_nil_r.
  - unfold mret, M_ret. simpl. by rewrite !app_nil_r.
Qed.

Lemma start_worker_unfold (worker : WorkerRef) (worker_id : option string)
    (force_interrupt : bool) :
  start_worker worker worker_id force_interrupt =
  _setup_worker_thread worker worker_id force_interrupt ≫= start_tail worker_id.
Proof. reflexivity. Qed.

(** The start of the thread that steps 1 to 5 have made. *)
Lemma start_tail_run (worker : WorkerRef) (worker_id : option string)
    (t : ThreadRef) (wk0 : Worker) reg ths wks nxt cf tr :
  start_tail worker_id (Some (t, worker))
    (mkWorld reg
       (<[t := mkThread false false false false false []
                 (if has_worker_task_finished wk0 then 1 else 0)]> ths)
       (<[worker := wired t worker worker_id wk0]> wks) nxt cf tr) =
  Ok (Some t)
    (mkWorld reg (<[t := started_thread worker wk0]> ths)
       (<[worker := wired t worker worker_id wk0]> wks) nxt cf
       (tr ++ start_events t worker_id wk0)).
Proof.
  unfold start_tail. rewrite (bind_Ok _ _ _ _ _ (get_run _)).
  rewrite worker_at_insert.
  unfold connect_thread_started, log_warning, QThread_start, start_events,
    started_thread, wired.
  cbn [has_run has_worker_task_finished].
  destruct (has_run wk0).
  - step_with ltac:(apply update_thread_run; world; apply lookup_insert_eq).
    rewrite insert_insert_eq.
    step_with ltac:(apply thread_call_run; world; [apply lookup_insert_eq|done]).
    cbn [fst snd]. rewrite insert_insert_eq. unfold mret, M_ret.
    simpl. by rewrite <- ?app_assoc, ?app_nil_r.
  - step_with ltac:(apply log_run).
    step_with ltac:(apply thread_call_run; world; [apply lookup_insert_eq|done]).
    cbn [fst snd]. rewrite insert_insert_eq. unfold mret, M_ret.
    simpl. by rewrite <- ?app_assoc, ?app_nil_r.
Qed.

(** Steps 1 to 5 and the start, in one piece. *)
Lemma setup_and_start (worker : WorkerRef) (worker_id : option string)
    (s : World) :
  (setup_new_thread worker worker_id ≫= start_tail worker_id) s =
  Ok (Some (next_thread s))
    (mkWorld
       (if Py.truthy worker_id
        then <[default EmptyString worker_id := (next_thread s, worker)]>
               (_active_workers s)
        else _active_workers s)
       (<[next_thread s := started_thread worker (worker_at s worker)]> (threads s))
       (<[worker := wired (next_thread s) worker worker_id (worker_at s worker)]>
          (workers s))
       (S (next_thread s)) (confirms s)
       (trace s ++
          (if Py.truthy worker_id then [EvLog INFO (MsgSetupDone worker_id)]
           else []) ++
          start_events (next_thread s) worker_id (worker_at s worker))).
Proof.
  destruct (Py.truthy worker_id) eqn:Hk.
  - destruct worker_id as [k|]; [|done].
    pose proof (truthy_key k Hk) as Hne.
    rewrite (bind_Ok _ _ _ _ _ (setup_new_thread_keyed worker k s Hne)).
    rewrite start_tail_run. cbn [default]. by rewrite <- !app_assoc.
  - rewrite (bind_Ok _ _ _ _ _ (setup_new_thread_anonymous worker worker_id s Hk)).
    by rewrite start_tail_run.
Qed.

(** Stopping a thread leaves the registry alone. *)
#[local] Instance same_registry_preorder : PreOrder same_registry.
Proof.
  split; [by intros s|]. intros s1 s2 s3 H1 H2. unfold same_registry in *. congruence.
Qed.

Lemma same_registry_stop_thread (target_thread : option ThreadRef)
    (worker_id : option string) (force : bool) :
  returns same_registry (stop_thread target_thread worker_id force).
Proof.
  apply (returns_stop_thread_by same_registry (λ _, True)); try done.
  - intros message level. by apply returns_modify.
  - intros A t c method _ s. unfold thread_call.
    destruct (threads (record (EvCall t c) s) !! t) as [th|]; [|done].
    destruct (deleted th); [done|]. by destruct (method _ th).
  - by destruct force.
Qed.

(** [_cleanup_worker(worker_id=k)] removes the entry of [k] and no other. *)
Lemma cleanup_by_id_exact (k : string) (force : bool) (s : World) :
  k ≠ EmptyString →
  ∃ s', _cleanup_worker None None (Some k) force s = Ok tt s' ∧
        _active_workers s' = delete k (_active_workers s) ∧
        settles_workers s s'.
Proof.
  intros Hne.
  destruct (returns_cleanup_worker None None (Some k) force s)
    as ([] & s' & Hrun & Hs').
  exists s'. split; [done|]. split; [|done].
  revert Hrun. unfold _cleanup_worker.
  rewrite (bind_Ok _ _ _ _ _ (get_run s)).
  assert (∀ target,
    (stop_thread target (Some k) force ≫= λ _, remove_entry (Some k)) s =
      Ok tt s' → _active_workers s' = delete k (_active_workers s)) as Hgo.
  { intros target.
    destruct (same_registry_stop_thread target (Some k) force s)
      as ([] & s1 & Hstop & Hs1).
    rewrite (bind_Ok _ _ _ _ _ Hstop). unfold same_registry in Hs1.
    destruct (_active_workers s1 !! k) as [v|] eqn:Hk.
    - rewrite (remove_entry_present k v) by done. intros [= <-]. world.
      by rewrite Hs1.
    - assert (entry (Some k) s1 = None) as Hnone
        by (by rewrite entry_truthy by done).
      rewrite (remove_entry_absent _ _ Hnone). intros [= <-].
      rewrite Hs1 in *. by rewrite delete_id. }
  rewrite entry_truthy by done.
  destruct (_active_workers s !! k) as [[stored_thread stored_worker]|];
    [|apply Hgo].
  rewrite decide_False by (intros Hneq; by apply Hneq). apply Hgo.
Qed.

(** The three ways [start_worker] can go. *)
Lemma start_worker_cases (worker : WorkerRef) (worker_id : option string)
    (force_interrupt : bool) (s : World) :
  (∃ k t w0 th s',
     worker_id = Some k ∧ k ≠ EmptyString ∧ force_interrupt = false ∧
     _active_workers s !! k = Some (t, w0) ∧
     threads s !! t = Some th ∧ deleted th = false ∧ running th = true ∧
     start_worker worker worker_id force_interrupt s = Ok None s') ∨
  (∃ k t w0 e s',
     worker_id = Some k ∧ k ≠ EmptyString ∧
     _active_workers s !! k = Some (t, w0) ∧ gone s t ∧
     start_worker worker worker_id force_interrupt s = Err e s') ∨
  (∃ s0,
     settles_workers s s0 ∧
     (if Py.truthy worker_id
      then _active_workers s0 = _active_workers s ∨
           _active_workers s0 = delete (default EmptyString worker_id)
                                  (_active_workers s)
      else s0 = s) ∧
     start_worker worker worker_id force_interrupt s =
     (setup_new_thread worker worker_id ≫= start_tail worker_id) s0).
Proof.
  rewrite start_worker_unfold. unfold _setup_worker_thread.
  rewrite bind_assoc, (bind_Ok _ _ _ _ _ (get_run s)).
  destruct (Py.truthy worker_id) eqn:Htruthy.
  2:{ right. right. exists s. rewrite entry_falsy by done. by split_and!. }
  destruct worker_id as [k|]; [|done].
  pose proof (truthy_key k Htruthy) as Hne.
  rewrite entry_truthy by done. cbn [default].
  destruct (_active_workers s !! k) as [[t w0]|] eqn:Hk.
  2:{ right. right. exists s. split_and!; try done. by left. }
  rewrite bind_assoc. unfold QThread_isRunning.
  destruct (threads s !! t) as [th|] eqn:Hth.
  2:{ assert (gone s t) as Hgone by (unfold gone; by rewrite Hth).
      right. left. eexists k, t, w0, _, _. split_and!; try done.
      erewrite bind_Err; [done|]. by apply thread_call_gone. }
  destruct (deleted th) eqn:Hlive.
  { assert (gone s t) as Hgone by (unfold gone; by rewrite Hth).
    right. left. eexists k, t, w0, _, _. split_and!; try done.
    erewrite bind_Err; [done|]. by apply thread_call_gone. }
  rewrite (bind_Ok _ _ _ _ _ (thread_call_run _ _ _ _ _ Hth Hlive)).
  cbn [fst snd]. rewrite insert_id by done.
  assert (∀ s2, settles_workers s s2 → _active_workers s2 = _active_workers s →
    ∃ s0, settles_workers s s0 ∧
      (_active_workers s0 = _active_workers s ∨
       _active_workers s0 = delete k (_active_workers s)) ∧
      ((_cleanup_worker None None (Some k) false ≫=
         λ _, setup_new_thread worker (Some k)) ≫= start_tail (Some k)) s2 =
      (setup_new_thread worker (Some k) ≫= start_tail (Some k)) s0) as Hcleanup.
  { intros s2 Hs2 Hreg.
    destruct (cleanup_by_id_exact k false s2 Hne) as (s0 & Hc & Hreg0 & Hs0).
    exists s0. split_and!.
    - by etrans.
    - right. by rewrite Hreg0, Hreg.
    - by rewrite bind_assoc, (bind_Ok _ _ _ _ _ Hc). }
  destruct (running th) eqn:Hrun; [destruct force_interrupt|].
  - right. right. unfold log_warning.
    rewrite bind_assoc, (bind_Ok _ _ _ _ _ (log_run _ _ _)).
    apply Hcleanup; [|done].
    split; [|done]. split_and!; try done. world.
    rewrite !emissions_app. simpl. by rewrite !app_nil_r.
  - left. unfold log_warning.
    rewrite bind_assoc, (bind_Ok _ _ _ _ _ (log_run _ _ _)).
    by eexists k, t, w0, th, _.
  - right. right. apply Hcleanup; [|done].
    split; [|done]. split_and!; try done. world.
    rewrite !emissions_app. simpl. by rewrite !app_nil_r.
Qed.

(** X6: for a worker whose object is alive, [start_worker] raises in no
    other situation: when it raises, the key is registered and the object of
    its thread is gone.  Under no key, or under a key that is not
    registered, it does not raise for such a worker.  (A worker whose object
    is deleted is outside this statement: the calls on it raise.) *)
Theorem X6_start_worker_raises_only_deleted (worker : WorkerRef)
    (worker_id : option string) (force_interrupt : bool) (s s1 : World)
    (e : Py.PyExc) :
  alive s worker →
  start_worker worker worker_id force_interrupt s = Err e s1 →
  ∃ k t w0, worker_id = Some k ∧ _active_workers s !! k = Some (t, w0) ∧ gone s t.
Proof.
  intros _ Hstart.
  destruct (start_worker_cases worker worker_id force_interrupt s)
    as [(k & t & w0 & th & s' & -> & _ & -> & Hk & Hth & Hlive & Hrunning & Hrun)|
        [(k & t & w0 & e' & s' & -> & _ & Hk & Hgone & Hrun)|
         (s0 & Hs0 & Hreg & Hrun)]]; try congruence.
  - by exists k, t, w0.
  - by rewrite Hrun, setup_and_start in Hstart.
Qed.

Lemma X6_witness :
  ∃ k t w0, Some "scan" = Some k ∧
            _active_workers scan_thread_deleted !! k = Some (t, w0) ∧
            gone scan_thread_deleted t.
Proof.
  apply (X6_start_worker_raises_only_deleted 1 (Some "scan") false
           scan_thread_deleted
           (mkWorld (_active_workers scan_thread_deleted)
              (threads scan_thread_deleted) (workers scan_thread_deleted)
              (next_thread scan_thread_deleted) (confirms scan_thread_deleted)
              (trace scan_thread_deleted ++ [EvCall 0 isRunning]))
           (Py.mkExc Py.RuntimeError "Internal C++ object already deleted.")).
  - reflexivity.
  - vm_compute. reflexivity.
Defined.

(** X7: [start_worker] returns [None] in one situation only:
    [force_interrupt] is false, the key is registered and its thread
    reports running.  With [force_interrupt=True], or under no key, it never
    returns [None]. *)
Theorem X7_start_worker_refuses_only_running (worker : WorkerRef)
    (worker_id : option string) (force_interrupt : bool) (s s1 : World) :
  start_worker worker worker_id force_interrupt s = Ok None s1 →
  force_interrupt = false ∧
  ∃ k t w0, worker_id = Some k ∧ _active_workers s !! k = Some (t, w0) ∧
            reports_running s t.
Proof.
  intros Hstart.
  destruct (start_worker_cases worker worker_id force_interrupt s)
    as [(k & t & w0 & th & s' & -> & _ & -> & Hk & Hth & Hlive & Hrunning & _)|
        [(k' & t' & w0 & e & s' & _ & _ & _ & _ & Hrun)|
         (s0 & Hs0 & Hreg & Hrun)]]; try congruence.
  - split; [done|]. exists k, t, w0. split_and!; try done. by exists th.
  - by rewrite Hrun, setup_and_start in Hstart.
Qed.

Lemma X7_witness :
  false = false ∧
  ∃ k t w0, Some "scan" = Some k ∧
            _active_workers Scenario.scan_started !! k = Some (t, w0) ∧
            reports_running Scenario.scan_started t.
Proof.
  apply (X7_start_worker_refuses_only_running 1 (Some "scan") false
           Scenario.scan_started
           (after (start_worker 1 (Some "scan") false) Scenario.scan_started)).
  vm_compute. reflexivity.
Defined.



(** X9: a [start_worker(worker, k)] that returns a thread has made exactly
    one thread object, which did not exist before and is now started; the
    registry is the one before with [k] bound to the new thread and the
    worker, so every other key keeps its entry; and no worker object but
    [worker] was touched. *)
Theorem X9_start_worker_registers_one_key (worker : WorkerRef) (k : string)
    (force_interrupt : bool) (t : ThreadRef) (s s1 : World) :
  consistent s → k ≠ EmptyString →
  start_worker worker (Some k) force_interrupt s = Ok (Some t) s1 →
  t = next_thread s ∧
  threads s !! t = None ∧
  _active_workers s1 = <[k := (t, worker)]> (_active_workers s) ∧
  threads s1 !! t = Some (started_thread worker (worker_at s worker)) ∧
  next_thread s1 = S (next_thread s) ∧
  (∀ w, w ≠ worker → workers s1 !! w = workers s !! w).
Proof.
  intros Hs Hne Hstart.
  assert (threads s !! next_thread s = None) as Hfresh.
  { destruct Hs as [_ Hs]. destruct (threads s !! next_thread s) as [th|] eqn:Hth;
      [|done]. specialize (Hs _ _ Hth). simpl in Hs. lia. }
  destruct (start_worker_cases worker (Some k) force_interrupt s)
    as [(k' & t' & w0 & th & s' & _ & _ & _ & _ & _ & _ & _ & Hrun)|
        [(k' & t' & w0 & e & s' & _ & _ & _ & _ & Hrun)|
         (s0 & Hs0 & Hreg & Hrun)]]; try congruence.
  rewrite Hrun, setup_and_start in Hstart.
  assert (Py.truthy (Some k) = true) as Htruthy
    by (unfold Py.truthy; by rewrite decide_False).
  rewrite Htruthy in *. cbn [default] in *.
  destruct Hs0 as [(_ & Hnext & _ & _) Hworkers].
  injection Hstart as <- <-. world. rewrite Hnext, Hworkers.
  assert (worker_at s0 worker = worker_at s worker) as ->
    by (unfold worker_at; by rewrite Hworkers).
  split_and!; try done.
  - destruct Hreg as [-> | ->]; [done|]. apply insert_delete_eq.
  - apply lookup_insert_eq.
  - intros w Hw. by rewrite lookup_insert_ne.
Qed.

(** Worker [0] is started under ["load"] while ["scan"] is registered:
    the entry of ["scan"] stays. *)
Lemma X9_witness :
  _active_workers two_started =
    <["load" := (1, 0)]> (_active_workers scan_returning) ∧
  _active_workers two_started !! "scan" = _active_workers scan_returning !! "scan".
Proof.
  destruct (X9_start_worker_registers_one_key 0 "load" false 1 scan_returning
              two_started) as (_ & _ & Hreg & _).
  - split; [reflexivity | compute_done].
  - done.
  - vm_compute. reflexivity.
  - split; [exact Hreg | reflexivity].
Defined.

(** X10: a [start_worker] under no key, or under the empty key, of a worker
    whose object is alive returns a thread: it makes and starts a new
    thread and wires the worker to it, it asks no existing thread anything,
    and the registry is not changed, so that neither [stop_worker] nor
    [force_stop_worker] nor a later [start_worker] can reach this worker.
    (A worker whose object is deleted is outside this statement: the calls
    on it raise.) *)
Theorem X10_start_worker_anonymous (worker : WorkerRef)
    (worker_id : option string) (force_interrupt : bool) (s : World) :
  alive s worker →
  Py.truthy worker_id = false →
  start_worker worker worker_id force_interrupt s =
  Ok (Some (next_thread s))
    (mkWorld (_active_workers s)
       (<[next_thread s := started_thread worker (worker_at s worker)]> (threads s))
       (<[worker := wired (next_thread s) worker worker_id (worker_at s worker)]>
          (workers s))
       (S (next_thread s)) (confirms s)
       (trace s ++ start_events (next_thread s) worker_id (worker_at s worker))).
Proof.
  intros _ Hk. rewrite start_worker_unfold. unfold _setup_worker_thread.
  rewrite bind_assoc, (bind_Ok _ _ _ _ _ (get_run s)).
  rewrite entry_falsy by done. rewrite setup_and_start. by rewrite Hk.
Qed.

Lemma X10_witness :
  ∃ s', start_worker 1 (Some EmptyString) false Scenario.scan_started =
          Ok (Some 1) s' ∧
        _active_workers s' = _active_workers Scenario.scan_started ∧
        calls_on 0 (drop (length (trace Scenario.scan_started)) (trace s')) = [].
Proof.
  eexists. split.
  - apply (X10_start_worker_anonymous 1 (Some EmptyString) false
             Scenario.scan_started).
    + reflexivity.
    + reflexivity.
  - split; reflexivity.
Defined.

(** X11: the cleanup that the finished signal of a worker started under no
    key triggers, [_cleanup_worker(thread, worker, worker_id)] with a falsy
    [worker_id], stops the worker's own thread on the graceful path when it
    reports running, and leaves the registry as it is. *)
Theorem X11_anonymous_cleanup_stops_its_thread (t : ThreadRef) (w : WorkerRef)
    (worker_id : option string) (payload : option string) (s : World)
    (th : QThread) :
  Py.truthy worker_id = false →
  threads s !! t = Some th → deleted th = false → running th = true →
  call_slot (SlotCleanup t w worker_id) payload s =
  Ok tt
    (mkWorld (_active_workers s)
       (<[t := asked_to_stop (confirms s t) th]> (threads s))
       (workers s) (next_thread s) (confirms s)
       (trace s ++ graceful_stop_events t worker_id (confirms s t))).
Proof.
  intros Hk Hth Hlive Hrun.
  unfold call_slot, slot_boundary, _cleanup_worker.
  rewrite (bind_Ok _ _ _ _ _ (get_run s)).
  rewrite entry_falsy by done.
  rewrite (bind_Ok _ _ _ _ _ (stop_thread_graceful t worker_id s th Hth Hlive Hrun)).
  by rewrite remove_entry_absent by by apply entry_falsy.
Qed.

Lemma X11_witness :
  ∃ s', call_slot (SlotCleanup 0 0 None) None Scenario.scan_started = Ok tt s' ∧
        _active_workers s' = _active_workers Scenario.scan_started ∧
        calls_on 0 (drop (length (trace Scenario.scan_started)) (trace s')) =
          [isRunning; requestInterruption; quit; wait (Some 1000%N)].
Proof.
  eexists. split.
  - apply (X11_anonymous_cleanup_stops_its_thread 0 0 None None
             Scenario.scan_started scan_thread).
    + reflexivity.
    + reflexivity.
    + reflexivity.
    + reflexivity.
  - split; reflexivity.
Defined.

(** *** Signals *)

Lemma emit_run (worker : WorkerRef) (sig : WorkerSignal)
    (payload : option string) (s : World) :
  ∃ s', emit worker sig payload s = Ok tt s' ∧
        emissions (trace s') = emissions (trace s) ++ [(worker, sig, payload)] ∧
        _active_workers s' ⊆ _active_workers s ∧
        next_thread s' = next_thread s.
Proof.
  unfold emit. rewrite (bind_Ok _ _ _ _ _ (modify_run _ _)).
  rewrite (bind_Ok _ _ _ _ _ (get_run _)).
  destruct (returns_call_slots
              match sig with
              | worker_task_finished =>
                  finished_slots
                    (worker_at (record (EvEmit worker sig payload) s) worker)
              | worker_error_occurred =>
                  error_slots
                    (worker_at (record (EvEmit worker sig payload) s) worker)
              end payload (record (EvEmit worker sig payload) s))
    as ([] & s' & Hrun & (Hreg & Hnext & Hemit & _)).
  exists s'. split; [done|]. split_and!; try done.
  rewrite Hemit. unfold record. world. by rewrite emissions_app.
Qed.

(** X12: in every state, [BaseWorker.run] emits exactly one signal and
    returns (the finished signal when [process] returns, the failed signal
    with [str(e)] when it raises an [Exception] [e]), or, when [process]
    raises something that is no [Exception], emits nothing and lets it
    through, leaving the state as it was. *)
Theorem X12_run_emits_one_signal (self : WorkerRef) (s : World) :
  match process (worker_at s self) with
  | ProcessReturns =>
      ∃ s', run self s = Ok tt s' ∧
            emissions (trace s') =
              emissions (trace s) ++ [(self, worker_task_finished, None)]
  | ProcessRaises e =>
      if Py.isinstance_Exception e then
        ∃ s', run self s = Ok tt s' ∧
              emissions (trace s') =
                emissions (trace s) ++
                  [(self, worker_error_occurred, Some (Py.exc_str e))]
      else run self s = Err e s
  end.
Proof.
  unfold run. rewrite (bind_Ok _ _ _ _ _ (get_run s)).
  destruct (process (worker_at s self)) as [|e].
  - destruct (emit_run self worker_task_finished None s) as (s' & ? & ? & _).
    by exists s'.
  - destruct (Py.isinstance_Exception e); [|done].
    destruct (emit_run self worker_error_occurred (Some (Py.exc_str e)) s)
      as (s' & ? & ? & _).
    by exists s'.
Qed.

(** The cleanup that names its thread removes the entry of [k] when the
    entry, if any, holds this thread. *)
Lemma cleanup_own_removes (k : string) (t : ThreadRef) (w : option WorkerRef)
    (force : bool) (s : World) :
  k ≠ EmptyString →
  (∀ v, _active_workers s !! k = Some v → v.1 = t) →
  ∃ s', _cleanup_worker (Some t) w (Some k) force s = Ok tt s' ∧
        _active_workers s' !! k = None ∧ settles_workers s s'.
Proof.
  intros Hne Hown. unfold _cleanup_worker.
  rewrite (bind_Ok _ _ _ _ _ (get_run s)).
  assert (∃ s', (stop_thread (Some t) (Some k) force ≫=
                   λ _, remove_entry (Some k)) s = Ok tt s' ∧
                _active_workers s' !! k = None ∧ settles_workers s s') as Hgo.
  { destruct (returns_stop_thread (Some t) (Some k) force s)
      as ([] & s1 & Hstop & Hs1).
    rewrite (bind_Ok _ _ _ _ _ Hstop).
    destruct (_active_workers s1 !! k) as [v|] eqn:Hk.
    - rewrite (remove_entry_present k v) by done. eexists. split; [done|].
      world. split; [apply lookup_delete_eq|].
      etrans; [done|]. split; [|done]. split_and!; try done.
      + world. apply delete_subseteq.
      + world. rewrite emissions_app. simpl. by rewrite app_nil_r.
    - assert (entry (Some k) s1 = None) as Hnone
        by (by rewrite entry_truthy by done).
      rewrite (remove_entry_absent _ _ Hnone).
      by exists s1. }
  rewrite entry_truthy by done.
  destruct (_active_workers s !! k) as [[stored_thread stored_worker]|] eqn:Hk;
    [|apply Hgo].
  specialize (Hown _ eq_refl). simpl in Hown. subst stored_thread.
  rewrite decide_False by (intros Hneq; by apply Hneq). apply Hgo.
Qed.

(** *** No [terminate] outside [force_stop_worker] *)

#[local] Instance calm_preorder : PreOrder calm.
Proof.
  split.
  - intros s. exists []. by rewrite app_nil_r.
  - intros s1 s2 s3 (tr1 & H1 & Hf1) (tr2 & H2 & Hf2). exists (tr1 ++ tr2).
    split; [by rewrite H2, H1, app_assoc | by apply Forall_app].
Qed.

Lemma calm_same_trace (s s' : World) : trace s' = trace s → calm s s'.
Proof. intros H. exists []. by rewrite app_nil_r. Qed.

Lemma calm_record (ev : Event) (s : World) :
  (∀ t, ev ≠ EvCall t terminate) → calm s (record ev s).
Proof. intros Hev. exists [ev]. split; [done|]. by apply Forall_singleton. Qed.

Lemma calm_log (message : LogMsg) (level : LogLevel) :
  returns calm (log message level).
Proof. apply returns_modify. intros s. by apply calm_record. Qed.

Lemma calm_thread_call {A} (t : ThreadRef) (c : ThreadCall)
    (method : World → QThread → A * QThread) :
  c ≠ terminate → keeps calm (thread_call t c method).
Proof.
  intros Hc s. unfold thread_call.
  assert (calm s (record (EvCall t c) s)) as Hrec
    by (apply calm_record; congruence).
  destruct (threads (record (EvCall t c) s) !! t) as [th|]; [|done].
  destruct (deleted th); [done|].
  destruct (method _ th) as [a th']. etrans; [done|]. by apply calm_same_trace.
Qed.

Lemma calm_modify (f : World → World) :
  (∀ s, trace (f s) = trace s) → returns calm (modify f).
Proof. intros Hf. apply returns_modify. intros s. by apply calm_same_trace. Qed.

Lemma calm_remove_entry (worker_id : option string) :
  returns calm (remove_entry worker_id).
Proof.
  unfold remove_entry. use returns_get_bind. intros s.
  destruct (entry worker_id s); [|use returns_ret].
  use returns_bind; [by apply calm_modify | intros _; apply calm_log].
Qed.

Lemma calm_cleanup_worker (thread : option ThreadRef)
    (worker : option WorkerRef) (worker_id : option string) :
  returns calm (_cleanup_worker thread worker worker_id false).
Proof.
  assert (∀ target, returns calm (stop_thread target worker_id false)) as Hstop.
  { intros target.
    apply (returns_stop_thread_by calm (λ c, c ≠ terminate)); try done.
    - apply calm_log.
    - intros A t c method. apply calm_thread_call. }
  unfold _cleanup_worker. use returns_get_bind. intros s.
  destruct (entry worker_id s) as [[stored_thread stored_worker]|].
  - case_decide; [apply calm_log|].
    use returns_bind; [apply Hstop | intros _; apply calm_remove_entry].
  - use returns_bind; [apply Hstop | intros _; apply calm_remove_entry].
Qed.

Lemma calm_update_worker (w : WorkerRef) (f : Worker → Worker) :
  returns calm (update_worker w f).
Proof. by apply calm_modify. Qed.

Lemma calm_update_thread (t : ThreadRef) (f : QThread → QThread) :
  returns calm (update_thread t f).
Proof. apply calm_modify. intros s. by destruct (threads s !! t). Qed.

Lemma calm_call_slots (slots : list Slot) (payload : option string) :
  returns calm (call_slots slots payload).
Proof.
  induction slots as [|slot slots IH]; simpl; [use returns_ret|].
  use returns_bind; [|by intros _].
  unfold call_slot. use returns_slot_boundary. destruct slot.
  - apply returns_keeps, calm_log.
  - apply returns_keeps, calm_cleanup_worker.
  - by apply calm_thread_call.
  - apply returns_keeps, calm_update_worker.
  - apply returns_keeps, calm_cleanup_worker.
Qed.

Lemma calm_emit (worker : WorkerRef) (sig : WorkerSignal)
    (payload : option string) :
  returns calm (emit worker sig payload).
Proof.
  unfold emit. use returns_bind.
  - apply returns_modify. intros s. by apply calm_record.
  - intros _. use returns_get_bind. intros s. apply calm_call_slots.
Qed.

Lemma calm_setup_new_thread (worker : WorkerRef) (worker_id : option string) :
  returns calm (setup_new_thread worker worker_id).
Proof.
  intros s. destruct (Py.truthy worker_id) eqn:Hk.
  - destruct worker_id as [k|]; [|done].
    pose proof (truthy_key k Hk) as Hne.
    eexists _, _. split; [by apply setup_new_thread_keyed|].
    by apply (calm_record (EvLog _ _)).
  - eexists _, _. split; [by apply setup_new_thread_anonymous|].
    by apply calm_same_trace.
Qed.

Lemma calm_start_worker (worker : WorkerRef) (worker_id : option string)
    (force_interrupt : bool) :
  keeps calm (start_worker worker worker_id force_interrupt).
Proof.
  use keeps_start_worker_by.
  - apply calm_log.
  - intros A t c method. apply calm_thread_call.
  - intros wid. apply calm_cleanup_worker.
  - apply calm_setup_new_thread.
  - apply calm_update_thread.
Qed.

(** X13: a worker with the finished signal, started under a key [k], whose
    [process] returns: [run] returns, the finished signal is emitted exactly
    once and the failed signal not at all, [quit] is called on the worker's
    thread, the worker is handed to [deleteLater], and afterwards no entry
    is registered under [k]. *)
Theorem X13_finished_worker (s s1 : World) (worker : WorkerRef)
    (k : string) (force_interrupt : bool) (t : ThreadRef) :
  k ≠ EmptyString →
  has_worker_task_finished (worker_at s worker) = true →
  process (worker_at s worker) = ProcessReturns →
  start_worker worker (Some k) force_interrupt s = Ok (Some t) s1 →
  ∃ s2,
    run worker s1 = Ok tt s2 ∧
    emissions (trace s2) =
      emissions (trace s1) ++ [(worker, worker_task_finished, None)] ∧
    _active_workers s2 !! k = None ∧
    deleteLater_called (worker_at s2 worker) = true ∧
    EvCall t quit ∈ trace s2.
Proof.
  intros Hne Hsig Hproc Hstart.
  destruct (start_worker_keyed_success _ _ _ _ _ _ Hne Hstart)
    as (-> & Hworkers & Hreg & _).
  assert (worker_at s1 worker =
          wired (next_thread s) worker (Some k) (worker_at s worker)) as Hw.
  { unfold worker_at at 1. by rewrite Hworkers, lookup_insert_eq. }
  unfold run. rewrite (bind_Ok _ _ _ _ _ (get_run s1)).
  rewrite Hw. cbn [process wired]. rewrite Hproc.
  unfold emit. rewrite (bind_Ok _ _ _ _ _ (modify_run _ _)).
  rewrite (bind_Ok _ _ _ _ _ (get_run _)).
  change (worker_at (record _ s1) worker) with (worker_at s1 worker).
  rewrite Hw. cbn [finished_slots wired]. rewrite Hsig.
  rewrite call_slots_app.
  destruct (returns_call_slots (finished_slots (worker_at s worker)) None
              (record (EvEmit worker worker_task_finished None) s1))
    as ([] & s2 & Hold & (Hreg2 & _ & Hemit2 & _)).
  rewrite (bind_Ok _ _ _ _ _ Hold).
  cbn [call_slots].
  (* thread.quit *)
  assert (∃ s3, call_slot (SlotThreadQuit (next_thread s)) None s2 = Ok tt s3 ∧
                settles_workers s2 s3 ∧
                EvCall (next_thread s) quit ∈ trace s3) as (s3 & Hquit & Hs3 & Hin).
  { unfold call_slot, slot_boundary, QThread_quit, thread_call.
    destruct (threads (record (EvCall (next_thread s) quit) s2) !! next_thread s)
      as [th|] eqn:Hth.
    - destruct (deleted th) eqn:Hdel.
      + eexists. split; [done|]. split.
        * by apply settles_record.
        * unfold record. world. apply elem_of_app. right.
          by apply list_elem_of_singleton.
      + eexists. split; [done|]. split.
        * etrans; [by apply (settles_record (EvCall (next_thread s) quit))|].
          by eapply settles_set_thread.
        * unfold set_thread, record. world. apply elem_of_app. right.
          by apply list_elem_of_singleton.
    - eexists. split; [done|]. split.
      + by apply settles_record.
      + unfold record. world. apply elem_of_app. right.
        by apply list_elem_of_singleton. }
  rewrite (bind_Ok _ _ _ _ _ Hquit).
  (* worker.deleteLater *)
  assert (call_slot (SlotWorkerDeleteLater worker) None s3 =
          Ok tt (mkWorld (_active_workers s3) (threads s3)
                   (<[worker := Worker_deleteLater (worker_at s3 worker)]>
                      (workers s3))
                   (next_thread s3) (confirms s3) (trace s3))) as Hdelete
    by reflexivity.
  rewrite (bind_Ok _ _ _ _ _ Hdelete).
  (* the cleanup *)
  match goal with
  | |- ∃ s2', (call_slot _ _ ≫= _) ?s4 = _ ∧ _ => set (s4' := s4)
  end.
  assert (_active_workers s4' ⊆ _active_workers s1) as Hsub.
  { subst s4'. world. destruct Hs3 as [(Hreg3 & _) _].
    etrans; [done|]. by etrans. }
  destruct (cleanup_own_removes k (next_thread s) (Some worker) false s4' Hne)
    as (s5 & Hclean & Hgone & [(_ & _ & Hemit5 & _) Hworkers5]).
  { intros v Hv. eapply lookup_weaken in Hv; [|done]. by simplify_eq. }
  assert (call_slot (SlotCleanup (next_thread s) worker (Some k)) None s4' =
          Ok tt s5) as Hslot.
  { unfold call_slot, slot_boundary. by rewrite Hclean. }
  rewrite (bind_Ok _ _ _ _ _ Hslot).
  exists s5. split; [done|]. split_and!.
  - rewrite Hemit5. subst s4'. world.
    destruct Hs3 as [(_ & _ & -> & _) _]. rewrite Hemit2.
    unfold record. world. by rewrite emissions_app.
  - done.
  - unfold worker_at. rewrite Hworkers5. subst s4'. world.
    by rewrite lookup_insert_eq.
  - assert (calm s4' s5) as (tr & Htr & _).
    { pose proof (calm_cleanup_worker (Some (next_thread s)) (Some worker)
                    (Some k) s4') as (a & s5'' & Hc & Hcalm).
      rewrite Hclean in Hc. by injection Hc as _ <-. }
    rewrite Htr. apply elem_of_app. left. exact Hin.
Qed.

Lemma X13_witness :
  ∃ s2,
    run 1 scan_returning = Ok tt s2 ∧
    emissions (trace s2) =
      emissions (trace scan_returning) ++ [(1, worker_task_finished, None)] ∧
    _active_workers s2 !! "scan" = None ∧
    deleteLater_called (worker_at s2 1) = true ∧
    EvCall 0 quit ∈ trace s2.
Proof.
  apply (X13_finished_worker Scenario.two_workers scan_returning 1 "scan"
           false 0).
  - done.
  - reflexivity.
  - reflexivity.
  - vm_compute. reflexivity.
Defined.

(** X14: whatever the state, [start_worker] (with either value of
    [force_interrupt]), [stop_worker], the delivery of a worker's signal to
    the slots the service connected, and [BaseWorker.run] call [terminate]
    on no thread; they only add events to the history.  [terminate] is
    called by [force_stop_worker] alone. *)
Theorem X14_terminate_only_by_force_stop (s : World) (worker : WorkerRef)
    (worker_id : option string) (force_interrupt : bool) (k : string)
    (sig : WorkerSignal) (payload : option string) :
  calm s (after (start_worker worker worker_id force_interrupt) s) ∧
  calm s (after (stop_worker k) s) ∧
  calm s (after (emit worker sig payload) s) ∧
  calm s (after (run worker) s).
Proof.
  split_and!.
  - apply after_keeps, calm_start_worker.
  - apply after_keeps, returns_keeps, calm_cleanup_worker.
  - apply after_keeps, returns_keeps, calm_emit.
  - apply after_run; [apply _|]. intros sig' payload'. apply calm_emit.
Qed.

(** *** Only [start_worker] registers, only [start_worker] makes threads *)

#[local] Instance shrinks_preorder : PreOrder shrinks.
Proof.
  split; [by intros s|]. intros s1 s2 s3 [H1 H1'] [H2 H2'].
  split; [by etrans | congruence].
Qed.

(** X15: whatever the state, [stop_worker], [force_stop_worker], the
    delivery of a worker's signal and [BaseWorker.run] register nothing and
    make no thread: the registry afterwards is a part of the registry
    before.  They return or, for [run], raise; in both cases this holds of
    the state they leave. *)
Theorem X15_registry_grows_only_by_start (s : World) (k : string)
    (worker : WorkerRef) (sig : WorkerSignal) (payload : option string) :
  shrinks s (after (stop_worker k) s) ∧
  shrinks s (after (force_stop_worker k) s) ∧
  shrinks s (after (emit worker sig payload) s) ∧
  shrinks s (after (run worker) s).
Proof.
  assert (∀ w sig' payload', returns shrinks (emit w sig' payload')) as Hemit.
  { intros w sig' payload' s0.
    destruct (emit_run w sig' payload' s0) as (s' & Hrun & _ & Hreg & Hnext).
    by exists tt, s'. }
  assert (∀ force, shrinks s (after (_cleanup_worker None None (Some k) force) s))
    as Hcleanup.
  { intros force. unfold after.
    by destruct (returns_cleanup_worker None None (Some k) force s)
      as ([] & s' & -> & [(Hreg & Hnext & _) _]). }
  split_and!.
  - apply Hcleanup.
  - apply Hcleanup.
  - apply after_keeps, returns_keeps, Hemit.
  - apply after_run; [apply _|]. intros sig' payload'. apply Hemit.
Qed.

(** *** The registry and the thread objects *)

#[local] Instance keeps_tidy_preorder : PreOrder keeps_tidy.
Proof.
  split.
  - intros s Hs. exact Hs.
  - intros s1 s2 s3 H12 H23 Hs. apply H23, H12, Hs.
Qed.

Lemma settles_tidy (s s' : World) : settles s s' → keeps_tidy s s'.
Proof.
  intros Hsettles (Hs & Hobj & Hinj).
  pose proof Hsettles as (Hreg & Hnext & _ & Hdom).
  split_and!.
  - by apply (settles_consistent s s').
  - intros k e Hk. simpl. apply Hdom.
    apply (Hobj k e). by eapply lookup_weaken.
  - intros k1 k2 e1 e2 H1 H2. apply Hinj; by eapply lookup_weaken.
Qed.

Lemma settles_workers_tidy (s s' : World) : settles_workers s s' → keeps_tidy s s'.
Proof. intros [Hs _]. by apply settles_tidy. Qed.

Lemma tidy_insert (s : World) (k : string) (worker : WorkerRef) (th : QThread)
    wks tr :
  k ≠ EmptyString → tidy s →
  tidy (mkWorld (<[k := (next_thread s, worker)]> (_active_workers s))
          (<[next_thread s := th]> (threads s)) wks (S (next_thread s))
          (confirms s) tr).
Proof.
  intros Hne ([Hkey Hfresh] & Hobj & Hinj).
  assert (∀ k' e, _active_workers s !! k' = Some e → e.1 ≠ next_thread s)
    as Hold.
  { intros k' e Hk' Heq. destruct (Hobj k' e Hk') as [th' Hth']. simpl in Hth'.
    specialize (Hfresh _ _ Hth'). simpl in Hfresh. lia. }
  split_and!.
  - split; world.
    + by rewrite lookup_insert_ne.
    + apply map_Forall_insert_2; [simpl; lia|].
      intros t th' Hth'. specialize (Hfresh t th' Hth'). simpl in *. lia.
  - world. apply map_Forall_insert_2.
    + simpl. rewrite lookup_insert_eq. by eexists.
    + intros k' e Hk'. simpl. apply lookup_insert_is_Some'. right.
      by apply (Hobj k' e).
  - world. intros k1 k2 e1 e2 H1 H2 Heq.
    destruct (decide (k1 = k)) as [->|Hk1], (decide (k2 = k)) as [->|Hk2];
      try done.
    + rewrite lookup_insert_eq in H1. rewrite lookup_insert_ne in H2 by done.
      injection H1 as <-. simpl in Heq. by destruct (Hold k2 e2 H2).
    + rewrite lookup_insert_eq in H2. rewrite lookup_insert_ne in H1 by done.
      injection H2 as <-. simpl in Heq. by destruct (Hold k1 e1 H1).
    + rewrite lookup_insert_ne in H1, H2 by done. by eapply Hinj.
Qed.

Lemma tidy_fresh_thread (s : World) (th : QThread) wks tr :
  tidy s →
  tidy (mkWorld (_active_workers s) (<[next_thread s := th]> (threads s)) wks
          (S (next_thread s)) (confirms s) tr).
Proof.
  intros ([Hkey Hfresh] & Hobj & Hinj). split_and!.
  - split; world; [done|].
    apply map_Forall_insert_2; [simpl; lia|].
    intros t th' Hth'. specialize (Hfresh t th' Hth'). simpl in *. lia.
  - world. intros k' e Hk'. simpl. apply lookup_insert_is_Some'. right.
    by apply (Hobj k' e).
  - done.
Qed.

Lemma tidy_setup_new_thread (worker : WorkerRef) (worker_id : option string) :
  returns keeps_tidy (setup_new_thread worker worker_id).
Proof.
  intros s. destruct (Py.truthy worker_id) eqn:Hk.
  - destruct worker_id as [k|]; [|done].
    pose proof (truthy_key k Hk) as Hne.
    eexists _, _. split; [by apply setup_new_thread_keyed|].
    intros Hs. by apply tidy_insert.
  - eexists _, _. split; [by apply setup_new_thread_anonymous|].
    intros Hs. by apply tidy_fresh_thread.
Qed.

Lemma tidy_cleanup_worker (thread : option ThreadRef)
    (worker : option WorkerRef) (worker_id : option string) (force : bool) :
  returns keeps_tidy (_cleanup_worker thread worker worker_id force).
Proof.
  eapply returns_weaken; [apply settles_workers_tidy|].
  apply returns_cleanup_worker.
Qed.

Lemma tidy_emit (worker : WorkerRef) (sig : WorkerSignal)
    (payload : option string) :
  returns keeps_tidy (emit worker sig payload).
Proof.
  unfold emit. use returns_bind.
  - apply returns_modify. by intros s Hs.
  - intros _. use returns_get_bind. intros s.
    eapply returns_weaken; [apply settles_tidy|]. apply returns_call_slots.
Qed.

Lemma tidy_start_worker (worker : WorkerRef) (worker_id : option string)
    (force_interrupt : bool) :
  keeps keeps_tidy (start_worker worker worker_id force_interrupt).
Proof.
  use keeps_start_worker_by.
  - intros message level.
    eapply returns_weaken; [apply settles_workers_tidy|]. apply returns_log.
  - intros A t c method _.
    eapply keeps_weaken; [apply settles_workers_tidy|]. apply keeps_thread_call.
  - intros wid. apply tidy_cleanup_worker.
  - apply tidy_setup_new_thread.
  - intros t f. apply returns_modify. intros s.
    destruct (threads s !! t) as [th|] eqn:Hth; [|done].
    by eapply settles_workers_tidy, settles_set_thread.
Qed.

Lemma tidy_perform (c : Call) (s : World) : tidy s → tidy (perform c s).
Proof.
  destruct c; simpl.
  - apply (after_keeps keeps_tidy), tidy_start_worker.
  - apply (after_keeps keeps_tidy), returns_keeps, tidy_cleanup_worker.
  - apply (after_keeps keeps_tidy), returns_keeps, tidy_cleanup_worker.
  - apply (after_keeps keeps_tidy), returns_keeps, tidy_emit.
  - apply (after_run keeps_tidy). intros sig payload. apply tidy_emit.
Qed.

(** X16: in every state that a new service reaches by calls of
    [start_worker], [stop_worker] and [force_stop_worker], deliveries of
    worker signals and runs of workers, in any number and order: no entry is
    registered under the empty key; the thread of every entry is an object
    the service has made; and no thread is registered under two keys. *)
Theorem X16_registry_invariants (workers : gmap WorkerRef Worker)
    (confirms : ThreadRef → bool) (calls : list Call) :
  let s := reached workers confirms calls in
  _active_workers s !! EmptyString = None ∧
  (∀ k t w, _active_workers s !! k = Some (t, w) → is_Some (threads s !! t)) ∧
  (∀ k1 k2 t w1 w2,
     _active_workers s !! k1 = Some (t, w1) →
     _active_workers s !! k2 = Some (t, w2) → k1 = k2).
Proof.
  cbv zeta.
  assert (tidy (reached workers confirms calls)) as ([Hkey _] & Hobj & Hinj).
  { unfold reached. induction calls as [|c calls IH] using rev_ind.
    - simpl. split_and!.
      + apply consistent_BaseService_init.
      + apply map_Forall_empty.
      + intros k1 k2 e1 e2 H1. unfold BaseService_init in H1.
        cbn [_active_workers] in H1. by rewrite lookup_empty in H1.
    - rewrite foldl_app. simpl. by apply tidy_perform. }
  split_and!.
  - done.
  - intros k t w Hk. apply (Hobj k (t, w) Hk).
  - intros k1 k2 t w1 w2 H1 H2. by apply (Hinj k1 k2 (t, w1) (t, w2)).
Qed.

(** Two workers started under two keys, one of them also under the empty
    key: the threads of the two entries are objects and differ. *)
Lemma X16_witness :
  let s := reached (workers Scenario.two_workers) (λ _, false)
             [CallStart 1 (Some "scan") false; CallStart 0 (Some "load") false;
              CallStart 1 (Some EmptyString) false] in
  _active_workers s !! "scan" = Some (0, 1) ∧
  _active_workers s !! "load" = Some (1, 0) ∧
  _active_workers s !! EmptyString = None ∧
  is_Some (threads s !! 1).
Proof.
  cbv zeta.
  destruct (X16_registry_invariants (workers Scenario.two_workers) (λ _, false)
              [CallStart 1 (Some "scan") false; CallStart 0 (Some "load") false;
               CallStart 1 (Some EmptyString) false]) as (Hkey & Hobj & _).
  split_and!.
  - reflexivity.
  - reflexivity.
  - exact Hkey.
  - apply (Hobj "load" 1 0). reflexivity.
Defined.

(** *** [cleanup_all_workers] *)

#[local] Instance quiet_preorder : PreOrder quiet.
Proof.
  split.
  - intros s. by split.
  - intros s1 s2 s3 [H1 H1'] [H2 H2']. split; by etrans.
Qed.

Lemma cleanup_each_run (keys : list string) (s : World) :
  Forall (λ k, k ≠ EmptyString) keys →
  ∃ s', cleanup_each keys s = Ok tt s' ∧ quiet s s' ∧
        ∀ k, k ∈ keys → _active_workers s' !! k = None.
Proof.
  revert s. induction keys as [|k keys IH]; intros s Hkeys.
  - exists s. split; [done|]. split; [done|]. intros k Hk. by apply elem_of_nil in Hk.
  - apply Forall_cons in Hkeys as [Hne Hkeys]. simpl.
    destruct (cleanup_by_id_removes k false s Hne) as (s1 & Hrun & Hgone & Hs1).
    destruct (calm_cleanup_worker None None (Some k) s) as ([] & s1' & Hrun' & Hcalm).
    rewrite Hrun in Hrun'. injection Hrun' as <-.
    rewrite (bind_Ok _ _ _ _ _ Hrun).
    destruct (IH s1 Hkeys) as (s' & Hrest & Hquiet & Hnone).
    exists s'. split; [done|]. split.
    + etrans; [|done]. by split.
    + intros k' [->|Hin]%elem_of_cons; [|by apply Hnone].
      destruct Hquiet as [[(Hreg & _) _] _]. by eapply lookup_weaken_None.
Qed.

(** X17: the loop of [cleanup_all_workers], run over the keys of the
    registry in whatever order the dictionary gives them, returns and leaves
    the registry empty; every thread was stopped on the graceful path (no
    [terminate]), no thread object was made and no worker object was
    touched. *)
Theorem X17_cleanup_all_workers_empties (keys : list string) (s : World) :
  consistent s →
  keys ≡ₚ (map_to_list (_active_workers s)).*1 →
  ∃ s', cleanup_each keys s = Ok tt s' ∧
        _active_workers s' = ∅ ∧
        calm s s' ∧
        workers s' = workers s ∧ next_thread s' = next_thread s.
Proof.
  intros [Hkey _] Hkeys.
  assert (∀ k, k ∈ keys ↔ is_Some (_active_workers s !! k)) as Hdom.
  { intros k. rewrite Hkeys, list_elem_of_fmap. split.
    - intros ([k' e] & -> & Hin%elem_of_map_to_list). by eexists.
    - intros [e He]. exists (k, e). split; [done|]. by apply elem_of_map_to_list. }
  destruct (cleanup_each_run keys s) as (s' & Hrun & [Hsettles Hcalm] & Hnone).
  { apply Forall_forall. intros k Hk ->. apply Hdom in Hk as [e He]. congruence. }
  destruct Hsettles as [(Hreg & Hnext & _) Hworkers].
  exists s'. split; [done|]. split_and!; try done.
  apply map_empty. intros k.
  destruct (_active_workers s !! k) as [e|] eqn:Hk.
  - apply Hnone, Hdom. by eexists.
  - by eapply lookup_weaken_None.
Qed.

Lemma X17_witness :
  ∃ s', cleanup_each ["load"; "scan"] two_started = Ok tt s' ∧
        _active_workers s' = ∅ ∧
        calm two_started s' ∧
        workers s' = workers two_started ∧
        next_thread s' = next_thread two_started.
Proof.
  apply (X17_cleanup_all_workers_empties ["load"; "scan"] two_started).
  - split; [reflexivity | compute_done].
  - vm_compute. apply Permutation_swap.
Defined.

End LifecycleFacts.

(** ** A signal as the set of its subscribers *)
Module SignalCallsFacts.
Import SimpleBus SimpleBusFacts SignalCalls.

(** X18: whatever calls of [connect] and [disconnect] were made on a new
    signal, in whatever order, its handler list holds no callable twice, and
    a callable is in it exactly when it is subscribed: connected, and
    neither disconnected nor swept by a [disconnect()] since. *)
Theorem X18_handlers_are_the_subscribed_set (calls : list SignalCall) :
  NoDup (_handlers (signal_after calls)) ∧
  ∀ h, h ∈ _handlers (signal_after calls) ↔ h ∈ subscribed calls.
Proof.
  unfold signal_after, subscribed.
  induction calls as [|c calls [IHnd IH]] using rev_ind.
  - split; [constructor|]. intros h. simpl. split.
    + by intros ?%elem_of_nil.
    + by intros ?%elem_of_empty.
  - rewrite !foldl_app. simpl.
    set (s := foldl signal_call SimpleSignal_init calls) in *.
    destruct c as [h0|[h0|]]; cbn [signal_call].
    + split; [by apply connect_NoDup|]. intros h.
      rewrite elem_of_union, elem_of_singleton, <- IH.
      unfold connect. case_decide as Hin; simpl.
      * split; [by right|]. by intros [->|?].
      * rewrite elem_of_app, list_elem_of_singleton. tauto.
    + split; [by apply (disconnect_NoDup (Some h0))|]. intros h.
      rewrite elem_of_difference, elem_of_singleton, <- IH.
      unfold disconnect. case_decide as Hin; simpl.
      * by apply list_remove_elem_of.
      * split; [|tauto]. intros Hh. split; [done|]. by intros ->.
    + split; [constructor|]. intros h. split.
      * by intros ?%elem_of_nil.
      * by intros ?%elem_of_empty.
Qed.

End SignalCallsFacts.

(** ** [disconnect_all] once more, and the lazy bus object *)
Module QtProxyFacts.
Import SimpleBus BusFacts.
Import QtProxy.

Lemma disconnect_fields_objs (signal_name : option string)
    (fs : list (string * loc)) (σ : Store) (ℓ : loc) :
  next_loc (foldl (disconnect_field signal_name) σ fs) = next_loc σ ∧
  objs (foldl (disconnect_field signal_name) σ fs) !! ℓ =
    if cleared signal_name fs ℓ then Some (mkSignal []) else objs σ !! ℓ.
Proof.
  revert σ. induction fs as [|[n ℓ'] fs IH]; intros σ; simpl; [done|].
  destruct (IH (disconnect_field signal_name σ (n, ℓ'))) as [-> ->].
  unfold disconnect_field. simpl.
  destruct (name_matches signal_name n); simpl; [|done].
  split; [done|].
  destruct (cleared signal_name fs ℓ); [by rewrite orb_true_r|].
  rewrite orb_false_r. case_bool_decide as Heq.
  - subst. by rewrite lookup_insert_eq.
  - by rewrite lookup_insert_ne.
Qed.

Lemma Store_eq (σ1 σ2 : Store) :
  next_loc σ1 = next_loc σ2 → (∀ ℓ, objs σ1 !! ℓ = objs σ2 !! ℓ) → σ1 = σ2.
Proof.
  destruct σ1 as [o1 n1], σ2 as [o2 n2]. simpl. intros -> Hobjs.
  f_equal. by apply map_eq.
Qed.

Lemma QObjectGroup_eq (g1 g2 : QtBus.QObjectGroup) :
  QtBus.metaObject g1 = QtBus.metaObject g2 →
  (∀ a, QtBus.connections g1 !! a = QtBus.connections g2 !! a) → g1 = g2.
Proof.
  destruct g1 as [m1 c1], g2 as [m2 c2]. simpl. intros -> Hc.
  f_equal. by apply map_eq.
Qed.

Lemma disconnect_all_built (b : QtBus._EventBusBackend)
    (signal_name : option string) :
  Bus.bus_built b →
  QtBus.disconnect_all b signal_name =
  QtBus.mkBackend (disconnect_group_methods signal_name (QtBus.b_system b))
    (disconnect_group_methods signal_name (QtBus.b_log b))
    (disconnect_group_methods signal_name (QtBus.b_data b))
    [QtBus.system; QtBus.log; QtBus.data].
Proof. destruct b as [sys lg dt gs]. simpl. by intros ->. Qed.

Lemma disconnect_group_methods_twice (signal_name : option string)
    (g : QtBus.QObjectGroup) :
  disconnect_group_methods signal_name (disconnect_group_methods signal_name g) =
  disconnect_group_methods signal_name g.
Proof.
  unfold disconnect_group_methods.
  destruct (disconnect_methods_spec signal_name (QtBus.metaObject g) g
              EmptyString) as [Hmeta _].
  apply QObjectGroup_eq.
  - rewrite Hmeta.
    by destruct (disconnect_methods_spec signal_name (QtBus.metaObject g)
                   (foldl (QtBus.disconnect_method signal_name) g
                      (QtBus.metaObject g)) EmptyString) as [-> _].
  - intros a. rewrite Hmeta.
    destruct (disconnect_methods_spec signal_name (QtBus.metaObject g)
                (foldl (QtBus.disconnect_method signal_name) g
                   (QtBus.metaObject g)) a) as [_ ->].
    destruct (disconnect_methods_spec signal_name (QtBus.metaObject g) g a)
      as [_ ->].
    destruct (existsb _ _); [|done].
    by destruct (QtBus.connections g !! a).
Qed.

Lemma disconnect_group_methods_unconnected (signal_name : option string)
    (g : QtBus.QObjectGroup) :
  unconnected signal_name g → disconnect_group_methods signal_name g = g.
Proof.
  intros Hg. unfold disconnect_group_methods. apply QObjectGroup_eq.
  - by destruct (disconnect_methods_spec signal_name (QtBus.metaObject g) g
                   EmptyString) as [-> _].
  - intros a.
    destruct (disconnect_methods_spec signal_name (QtBus.metaObject g) g a)
      as [_ ->].
    destruct (existsb _ _) eqn:Hhit; [|done].
    destruct (QtBus.connections g !! a) as [slots|] eqn:Ha; [|done]. simpl.
    apply existsb_exists in Hhit as (m & _ & Hm). unfold QtBus.hits in Hm.
    destruct (QtBus.methodType m); try done.
    apply andb_true_iff in Hm as [Hname%bool_decide_eq_true Hmatch].
    rewrite Hname in Hmatch. by rewrite (Hg a slots Ha Hmatch).
Qed.

(** X19: calling [disconnect_all] a second time with the same argument
    changes nothing, on the inline bus (whatever the store holds) and on the
    threaded backend; and on a threaded backend where no signal named by the
    argument has a connection, the first call already changes nothing: the
    [RuntimeError] of every [sig.disconnect()] is swallowed. *)
Theorem X19_disconnect_all_again (signal_name : option string) :
  (∀ (self : SimpleEventBus) (σ : Store),
     SimpleBus.disconnect_all self signal_name
       (SimpleBus.disconnect_all self signal_name σ) =
     SimpleBus.disconnect_all self signal_name σ) ∧
  (∀ b : QtBus._EventBusBackend, Bus.bus_built b →
     QtBus.disconnect_all (QtBus.disconnect_all b signal_name) signal_name =
     QtBus.disconnect_all b signal_name) ∧
  (∀ b : QtBus._EventBusBackend, Bus.bus_built b →
     unconnected signal_name (QtBus.b_system b) →
     unconnected signal_name (QtBus.b_log b) →
     unconnected signal_name (QtBus.b_data b) →
     QtBus.disconnect_all b signal_name = b).
Proof.
  split_and!.
  - intros self σ. rewrite !disconnect_all_fields.
    set (fs := g ← SimpleBus._signal_groups self; fields g).
    apply Store_eq.
    + destruct (disconnect_fields_objs signal_name fs
                  (foldl (disconnect_field signal_name) σ fs) 0) as [-> _].
      done.
    + intros ℓ.
      destruct (disconnect_fields_objs signal_name fs
                  (foldl (disconnect_field signal_name) σ fs) ℓ) as [_ ->].
      destruct (disconnect_fields_objs signal_name fs σ ℓ) as [_ ->].
      by destruct (cleared signal_name fs ℓ).
  - intros b Hb. rewrite (disconnect_all_built b) by done.
    rewrite disconnect_all_built by done. simpl.
    by rewrite !disconnect_group_methods_twice.
  - intros b Hb Hsys Hlog Hdata. rewrite disconnect_all_built by done.
    rewrite !disconnect_group_methods_unconnected by done.
    destruct b as [sys lg dt gs]. simpl in *. by subst gs.
Qed.

(** With slot [1] on [log.message] and slot [2] on
    [system.system_error_occurred]: a second [disconnect_all("message")]
    changes nothing, and [disconnect_all("sequence_data_loaded")], which
    names a signal without connections, changes nothing at all. *)
Lemma X19_witness :
  QtBus.disconnect_all
    (QtBus.disconnect_all Scenario.qt_subscribed (Some "message"))
    (Some "message") =
  QtBus.disconnect_all Scenario.qt_subscribed (Some "message") ∧
  QtBus.disconnect_all Scenario.qt_subscribed (Some "sequence_data_loaded") =
  Scenario.qt_subscribed.
Proof.
  split.
  - destruct (X19_disconnect_all_again (Some "message")) as (_ & Htwice & _).
    apply Htwice. reflexivity.
  - destruct (X19_disconnect_all_again (Some "sequence_data_loaded"))
      as (_ & _ & Hnone).
    apply Hnone; [reflexivity|..];
      intros a slots Ha Hmatch; apply bool_decide_eq_true in Hmatch; subst a;
      vm_compute in Ha; by simplify_eq.
Defined.

(** *** The lazy bus object *)
Import QtBus.

Lemma use_holds (st : EventBus * Heap) (u : Use) (b : nat)
    (backend : _EventBusBackend) :
  holds st b backend →
  holds (use st u) b (direct backend u) ∧
  next_backend (use st u).2 = next_backend st.2 ∧
  ∀ b', b' ≠ b → backends (use st u).2 !! b' = backends st.2 !! b'.
Proof.
  destruct st as [[ob] h]. intros [Hb Hbackend].
  simpl in Hb, Hbackend. subst ob.
  destruct u as [name|signal_name]; simpl.
  - by split_and!.
  - unfold QtProxy.disconnect_all, _qobject. simpl. split_and!.
    + split; [done|]. simpl. by rewrite lookup_alter_eq, Hbackend.
    + done.
    + intros b' Hne. by rewrite lookup_alter_ne.
Qed.

Lemma first_use_holds (h : Heap) (u : Use) :
  holds (use (EventBus_init, h) u) (next_backend h)
    (direct _EventBusBackend_init u) ∧
  next_backend (use (EventBus_init, h) u).2 = S (next_backend h) ∧
  ∀ b', b' ≠ next_backend h →
        backends (use (EventBus_init, h) u).2 !! b' = backends h !! b'.
Proof.
  destruct u as [name|signal_name]; simpl.
  - split_and!.
    + split; [done|]. simpl. by rewrite lookup_insert_eq.
    + done.
    + intros b' Hne. by rewrite lookup_insert_ne.
  - unfold QtProxy.disconnect_all, _qobject. simpl. split_and!.
    + split; [done|]. simpl. by rewrite lookup_alter_eq, lookup_insert_eq.
    + done.
    + intros b' Hne. by rewrite lookup_alter_ne, lookup_insert_ne.
Qed.

(** X20: a new [EventBus] holds no backend.  Its first use, an attribute
    access (even of a name the backend does not have) or a
    [disconnect_all], makes the backend; whatever uses follow, the bus
    holds that same object, no second backend is made, no other object is
    touched, and the backend is in the state that the same uses made of it
    directly would have left. *)
Theorem X20_backend_made_once (h : Heap) (u : Use) (uses : list Use) :
  _backend EventBus_init = None ∧
  let st := foldl use (EventBus_init, h) (u :: uses) in
  _backend st.1 = Some (next_backend h) ∧
  next_backend st.2 = S (next_backend h) ∧
  (∀ b, b ≠ next_backend h → backends st.2 !! b = backends h !! b) ∧
  backends st.2 !! next_backend h =
    Some (foldl direct _EventBusBackend_init (u :: uses)).
Proof.
  split; [done|]. cbv zeta. simpl.
  destruct (first_use_holds h u) as (Hholds & Hnext & Hframe).
  revert Hholds Hnext Hframe.
  generalize (use (EventBus_init, h) u) (direct _EventBusBackend_init u).
  intros st backend.
  revert st backend.
  induction uses as [|u' uses IH]; intros st backend Hholds Hnext Hframe.
  - simpl. destruct Hholds as [Hb Hbackend]. by split_and!.
  - simpl. destruct (use_holds st u' _ _ Hholds) as (Hholds' & Hnext' & Hframe').
    apply IH; [done|congruence|].
    intros b Hb. by rewrite Hframe', Hframe.
Qed.

End QtProxyFacts.
